(** * Echoing API: the request echo handler of [main.py]

    The repository is one FastAPI module: a route declaration, the handler
    [echo], and two helpers, [_normalize_scope] and [_headers_to_list].
    This development embeds them over

    - Python values the handler touches ([bytes], [str], scalars, lists,
      tuples, dictionaries, opaque objects),
    - the library calls the handler makes ([bytes.decode], [base64.b64encode],
      [urllib.parse.parse_qsl] behind [request.query_params], [json.loads]
      behind [request.json()]),
    - the routing table FastAPI builds from the decorator.

    The codec registry and the JSON decoder belong to the interpreter; the
    handler is written over an interface [Runtime] for them, and [cpython]
    is the instance the scenarios are evaluated in. *)

From Stdlib Require Import ZArith NArith List Ascii String Lia.
From Stdlib.Strings Require Import Byte.
From stdpp Require Import gmap list fin_maps.

Local Open Scope N_scope.

(** ** Python data: bytes, text, exceptions *)

(** [bytes]: a sequence of octets. *)
Abbreviation bytes := (list byte).

(** [str]: a sequence of Unicode code points. *)
Abbreviation str := (list N).

(** A text literal: the code points of an ASCII string. *)
Definition lit (s : string) : str := map N_of_ascii (list_ascii_of_string s).

(** A bytes literal. *)
Definition blit (s : string) : bytes := list_byte_of_string s.

(** The exception classes the handler can meet, and the part of the class
    hierarchy its two [except] clauses look at. *)
Inductive exn : Type :=
  | LookupError
  | KeyError
  | ValueError
  | UnicodeError
  | UnicodeDecodeError
  | JSONDecodeError
  | RecursionError
  | MemoryError
  | KeyboardInterrupt
  | CancelledError.

(** [isinstance(e, LookupError)] *)
Definition is_LookupError (e : exn) : bool :=
  match e with
  | LookupError | KeyError => true
  | _ => false
  end.

(** [isinstance(e, Exception)]: everything but the direct children of
    [BaseException]. *)
Definition is_Exception (e : exn) : bool :=
  match e with
  | KeyboardInterrupt | CancelledError => false
  | _ => true
  end.

(** A computation that returns a value or raises. *)
Inductive result (A : Type) : Type :=
  | Ok (a : A)
  | Raise (e : exn).
Arguments Ok {A} a.
Arguments Raise {A} e.

#[global] Instance result_ret : MRet result := fun A a => Ok a.

#[global] Instance result_bind : MBind result := fun A B k r =>
  match r with
  | Ok a => k a
  | Raise e => Raise e
  end.

Definition returns {A} (r : result A) : Prop := exists a, r = Ok a.

(** ** Text codecs *)

(** U+FFFD, what [errors="replace"] puts for undecodable input. *)
Definition REPLACEMENT : N := 0xFFFD.

(** latin-1: every byte is the code point of the same number. *)
Definition latin1_decode (b : bytes) : str := map Byte.to_N b.

(** How a decoder treats undecodable input. *)
Inductive errors : Type := Strict | Replace | SurrogatePass.

(** ascii: bytes above 0x7F are errors. *)
Fixpoint ascii_decode (h : errors) (b : bytes) : result str :=
  match b with
  | [] => Ok []
  | c :: rest =>
      if Byte.to_N c <? 0x80 then
        s ← ascii_decode h rest; Ok (Byte.to_N c :: s)
      else
        match h with
        | Replace => s ← ascii_decode h rest; Ok (REPLACEMENT :: s)
        | _ => Raise UnicodeDecodeError
        end
  end.

Definition is_continuation (c : N) : bool := N.land c 0xC0 =? 0x80.

(** One step of the UTF-8 decoder at the head of the input. *)
Inductive utf8_step : Type :=
  | Decoded (cp : N) (rest : bytes)
  | Invalid (rest : bytes)          (* error range ends before [rest] *)
  | Truncated.                      (* unexpected end of data *)

Definition utf8_next (c0 : byte) (t1 : bytes) : utf8_step :=
  let ch := Byte.to_N c0 in
  if ch <? 0x80 then Decoded ch t1
  else if ch <? 0xC2 then Invalid t1
  else if ch <? 0xE0 then
    match t1 with
    | [] => Truncated
    | c1 :: t2 =>
        let ch2 := Byte.to_N c1 in
        if is_continuation ch2
        then Decoded (N.lor (N.shiftl (N.land ch 0x1F) 6) (N.land ch2 0x3F)) t2
        else Invalid t1
    end
  else if ch <? 0xF0 then
    match t1 with
    | [] => Truncated
    | c1 :: t2 =>
        let ch2 := Byte.to_N c1 in
        if negb (is_continuation ch2)
           || (if ch2 <? 0xA0 then ch =? 0xE0 else ch =? 0xED)
        then Invalid t1
        else
          match t2 with
          | [] => Truncated
          | c2 :: t3 =>
              let ch3 := Byte.to_N c2 in
              if is_continuation ch3
              then Decoded (N.lor (N.shiftl (N.land ch 0x0F) 12)
                             (N.lor (N.shiftl (N.land ch2 0x3F) 6)
                                (N.land ch3 0x3F))) t3
              else Invalid t2
          end
    end
  else if ch <? 0xF5 then
    match t1 with
    | [] => Truncated
    | c1 :: t2 =>
        let ch2 := Byte.to_N c1 in
        if negb (is_continuation ch2)
           || (if ch2 <? 0x90 then ch =? 0xF0 else ch =? 0xF4)
        then Invalid t1
        else
          match t2 with
          | [] => Truncated
          | c2 :: t3 =>
              let ch3 := Byte.to_N c2 in
              if negb (is_continuation ch3) then Invalid t2
              else
                match t3 with
                | [] => Truncated
                | c3 :: t4 =>
                    let ch4 := Byte.to_N c3 in
                    if is_continuation ch4
                    then Decoded (N.lor (N.shiftl (N.land ch 0x07) 18)
                                   (N.lor (N.shiftl (N.land ch2 0x3F) 12)
                                      (N.lor (N.shiftl (N.land ch3 0x3F) 6)
                                         (N.land ch4 0x3F)))) t4
                    else Invalid t3
                end
          end
    end
  else Invalid t1.

(** The [surrogatepass] handler: three bytes that spell a surrogate. *)
Definition utf8_surrogate (b : bytes) : option (N * bytes) :=
  match b with
  | c0 :: c1 :: c2 :: rest =>
      let p0 := Byte.to_N c0 in
      let p1 := Byte.to_N c1 in
      let p2 := Byte.to_N c2 in
      if (N.land p0 0xF0 =? 0xE0) && is_continuation p1 && is_continuation p2
      then
        let ch := N.shiftl (N.land p0 0x0F) 12 + N.shiftl (N.land p1 0x3F) 6
                  + N.land p2 0x3F in
        if (0xD800 <=? ch) && (ch <=? 0xDFFF) then Some (ch, rest) else None
      else None
  | _ => None
  end.

(** [b.decode("utf-8", errors=h)].  The recursion is on the number of
    bytes left: every step consumes at least one. *)
Fixpoint utf8_decode_fuel (n : nat) (h : errors) (b : bytes) : result str :=
  match n, b with
  | _, [] => Ok []
  | O, _ => Ok []
  | S n, c0 :: t1 =>
      match utf8_next c0 t1 with
      | Decoded cp rest => s ← utf8_decode_fuel n h rest; Ok (cp :: s)
      | Invalid rest =>
          match h with
          | Strict => Raise UnicodeDecodeError
          | Replace => s ← utf8_decode_fuel n h rest; Ok (REPLACEMENT :: s)
          | SurrogatePass =>
              match utf8_surrogate b with
              | Some (ch, rest') =>
                  s ← utf8_decode_fuel n h rest'; Ok (ch :: s)
              | None => Raise UnicodeDecodeError
              end
          end
      | Truncated =>
          match h with
          | Replace => Ok [REPLACEMENT]
          | _ => Raise UnicodeDecodeError
          end
      end
  end.

Definition utf8_decode (h : errors) (b : bytes) : result str :=
  utf8_decode_fuel (length b) h b.

(** [b.decode("ascii")], as applied to the output of [b64encode]. *)
Definition ascii_decode_strict (b : bytes) : result str := ascii_decode Strict b.

(** ** base64 *)

Definition b64_alphabet : bytes :=
  blit "ABCDEFGHIJKLMNOPQRSTUVWXYZabcdefghijklmnopqrstuvwxyz0123456789+/".

Definition BASE64_PAD : byte := "="%byte.

(** The character of a six-bit group. *)
Definition b64_char (n : N) : byte := nth (N.to_nat n) b64_alphabet BASE64_PAD.

Fixpoint b64_find (c : byte) (table : bytes) (i : N) : option N :=
  match table with
  | [] => None
  | x :: rest => if Byte.eqb c x then Some i else b64_find c rest (i + 1)
  end.

(** The six-bit group of a character of the alphabet. *)
Definition b64_index (c : byte) : option N := b64_find c b64_alphabet 0.

(** The four six-bit groups of three octets [x], [y], [z]. *)
Definition sextet1 (x : N) : N := N.shiftr x 2.
Definition sextet2 (x y : N) : N := N.lor (N.shiftl (N.land x 3) 4) (N.shiftr y 4).
Definition sextet3 (y z : N) : N := N.lor (N.shiftl (N.land y 15) 2) (N.shiftr z 6).
Definition sextet4 (z : N) : N := N.land z 63.

(** [base64.b64encode(s)]: three octets give four characters; a last group
    of one or two octets is filled with zero bits and padded with [=]. *)
Fixpoint b64encode (s : bytes) : bytes :=
  match s with
  | [] => []
  | [a] =>
      let x := Byte.to_N a in
      [b64_char (sextet1 x); b64_char (sextet2 x 0); BASE64_PAD; BASE64_PAD]
  | [a; b] =>
      let x := Byte.to_N a in
      let y := Byte.to_N b in
      [b64_char (sextet1 x); b64_char (sextet2 x y); b64_char (sextet3 y 0);
       BASE64_PAD]
  | a :: b :: c :: rest =>
      let x := Byte.to_N a in
      let y := Byte.to_N b in
      let z := Byte.to_N c in
      b64_char (sextet1 x) :: b64_char (sextet2 x y)
      :: b64_char (sextet3 y z) :: b64_char (sextet4 z)
      :: b64encode rest
  end.

(** The octets of a group of six-bit values. *)
Definition octet1 (s1 s2 : N) : option byte :=
  Byte.of_N (N.lor (N.shiftl s1 2) (N.shiftr s2 4)).
Definition octet2 (s2 s3 : N) : option byte :=
  Byte.of_N (N.lor (N.shiftl (N.land s2 15) 4) (N.shiftr s3 2)).
Definition octet3 (s3 s4 : N) : option byte :=
  Byte.of_N (N.lor (N.shiftl (N.land s3 3) 6) s4).

(** Standard base64 decoding (RFC 4648, section 4): groups of four
    characters of the alphabet, [=] only as padding of the last group. *)
Fixpoint b64decode (s : bytes) : option bytes :=
  match s with
  | [] => Some []
  | c1 :: c2 :: c3 :: c4 :: rest =>
      s1 ← b64_index c1;
      s2 ← b64_index c2;
      a ← octet1 s1 s2;
      if Byte.eqb c4 BASE64_PAD then
        match rest with
        | [] =>
            if Byte.eqb c3 BASE64_PAD then Some [a]
            else
              s3 ← b64_index c3;
              b ← octet2 s2 s3;
              Some [a; b]
        | _ => None
        end
      else
        s3 ← b64_index c3;
        s4 ← b64_index c4;
        b ← octet2 s2 s3;
        c ← octet3 s3 s4;
        tail ← b64decode rest;
        Some (a :: b :: c :: tail)
  | _ => None
  end.

(** ** Python values *)

(** A [float] is kept as the literal that denotes it: no property below
    computes with floats. *)
Inductive pyfloat : Type :=
  | FNaN
  | FInf
  | FNegInf
  | FLiteral (text : str).        (* [float(text)] *)

#[local] Set Warnings "-register-all".
Inductive PyVal : Type :=
  | VNone
  | VBool (b : bool)
  | VInt (z : Z)
  | VFloat (f : pyfloat)
  | VStr (s : str)
  | VBytes (b : bytes)
  | VList (items : list PyVal)
  | VTuple (items : list PyVal)
  | VDict (entries : list (str * PyVal))
  | VObject (name : string).      (* any other object: a handle, a callable *)

(** [d[key] = value] on a dictionary kept in insertion order. *)
Fixpoint dict_set (key : str) (value : PyVal) (d : list (str * PyVal))
  : list (str * PyVal) :=
  match d with
  | [] => [(key, value)]
  | (k, v) :: rest =>
      if decide (k = key) then (k, value) :: rest
      else (k, v) :: dict_set key value rest
  end.

(** [dict(pairs)] *)
Definition dict_of_pairs (pairs : list (str * PyVal)) : list (str * PyVal) :=
  fold_left (fun d kv => dict_set (fst kv) (snd kv) d) pairs [].

(** ** Other decoders [json.loads] may pick *)

Definition unit16 (little : bool) (c0 c1 : byte) : N :=
  if little then Byte.to_N c0 + 256 * Byte.to_N c1
  else 256 * Byte.to_N c0 + Byte.to_N c1.

Definition is_high_surrogate (u : N) : bool := (0xD800 <=? u) && (u <=? 0xDBFF).
Definition is_low_surrogate (u : N) : bool := (0xDC00 <=? u) && (u <=? 0xDFFF).

(** [b.decode("utf-16-le" or "utf-16-be", "surrogatepass")] *)
Fixpoint utf16_decode (little : bool) (b : bytes) : result str :=
  match b with
  | [] => Ok []
  | [_] => Raise UnicodeDecodeError
  | c0 :: c1 :: rest =>
      let u := unit16 little c0 c1 in
      match rest with
      | d0 :: d1 :: rest' =>
          let u' := unit16 little d0 d1 in
          if is_high_surrogate u && is_low_surrogate u' then
            s ← utf16_decode little rest';
            Ok (0x10000 + N.lor (N.shiftl (u - 0xD800) 10) (u' - 0xDC00) :: s)
          else s ← utf16_decode little rest; Ok (u :: s)
      | _ => s ← utf16_decode little rest; Ok (u :: s)
      end
  end.

Definition unit32 (little : bool) (c0 c1 c2 c3 : byte) : N :=
  if little
  then Byte.to_N c0 + 256 * (Byte.to_N c1 + 256 * (Byte.to_N c2 + 256 * Byte.to_N c3))
  else Byte.to_N c3 + 256 * (Byte.to_N c2 + 256 * (Byte.to_N c1 + 256 * Byte.to_N c0)).

(** [b.decode("utf-32-le" or "utf-32-be", "surrogatepass")] *)
Fixpoint utf32_decode (little : bool) (b : bytes) : result str :=
  match b with
  | [] => Ok []
  | c0 :: c1 :: c2 :: c3 :: rest =>
      let u := unit32 little c0 c1 c2 c3 in
      if u <=? 0x10FFFF then s ← utf32_decode little rest; Ok (u :: s)
      else Raise UnicodeDecodeError
  | _ => Raise UnicodeDecodeError
  end.

(** ** [json]: the decoder behind [request.json()] *)

Inductive json_encoding : Type :=
  | UTF32 | UTF16 | UTF8_SIG | UTF16_BE | UTF16_LE | UTF32_BE | UTF32_LE | UTF8.

(** [json.detect_encoding(b)] *)
Definition detect_encoding (b : bytes) : json_encoding :=
  match map Byte.to_N b with
  | 0x00 :: 0x00 :: 0xFE :: 0xFF :: _ => UTF32
  | 0xFF :: 0xFE :: 0x00 :: 0x00 :: _ => UTF32
  | 0xFE :: 0xFF :: _ => UTF16
  | 0xFF :: 0xFE :: _ => UTF16
  | 0xEF :: 0xBB :: 0xBF :: _ => UTF8_SIG
  | b0 :: b1 :: b2 :: b3 :: _ =>
      if b0 =? 0 then (if b1 =? 0 then UTF32_BE else UTF16_BE)
      else if b1 =? 0 then
        (if negb (b2 =? 0) || negb (b3 =? 0) then UTF16_LE else UTF32_LE)
      else UTF8
  | [b0; b1] =>
      if b0 =? 0 then UTF16_BE else if b1 =? 0 then UTF16_LE else UTF8
  | _ => UTF8
  end.

(** [b.decode(detect_encoding(b), "surrogatepass")] *)
Definition json_decode_bytes (b : bytes) : result str :=
  match detect_encoding b with
  | UTF8 => utf8_decode SurrogatePass b
  | UTF8_SIG => utf8_decode SurrogatePass (drop 3 b)
  | UTF16_LE => utf16_decode true b
  | UTF16_BE => utf16_decode false b
  | UTF32_LE => utf32_decode true b
  | UTF32_BE => utf32_decode false b
  | UTF16 =>
      match map Byte.to_N (take 2 b) with
      | [0xFE; 0xFF] => utf16_decode false (drop 2 b)
      | _ => utf16_decode true (drop 2 b)
      end
  | UTF32 =>
      match map Byte.to_N (take 4 b) with
      | [0x00; 0x00; 0xFE; 0xFF] => utf32_decode false (drop 4 b)
      | _ => utf32_decode true (drop 4 b)
      end
  end.

(** Code points the scanner looks for. *)
Definition ch (a : ascii) : N := N_of_ascii a.

Definition QUOTE : N := 0x22.

Definition is_ws (c : N) : bool :=
  (c =? ch " ") || (c =? 0x09) || (c =? 0x0A) || (c =? 0x0D).

(** [WHITESPACE.match(s, end).end()] *)
Fixpoint skip_ws (s : str) : str :=
  match s with
  | c :: rest => if is_ws c then skip_ws rest else s
  | [] => []
  end.

Definition is_digit (c : N) : bool := (ch "0" <=? c) && (c <=? ch "9").

Definition hex_value (c : N) : option N :=
  if is_digit c then Some (c - ch "0")
  else if (ch "a" <=? c) && (c <=? ch "f") then Some (c - ch "a" + 10)
  else if (ch "A" <=? c) && (c <=? ch "F") then Some (c - ch "A" + 10)
  else None.

(** The four hexadecimal digits after [\u]. *)
Definition decode_uXXXX (s : str) : result (N * str) :=
  match s with
  | h1 :: h2 :: h3 :: h4 :: rest =>
      match hex_value h1, hex_value h2, hex_value h3, hex_value h4 with
      | Some a, Some b, Some c, Some d =>
          Ok (((a * 16 + b) * 16 + c) * 16 + d, rest)
      | _, _, _, _ => Raise JSONDecodeError
      end
  | _ => Raise JSONDecodeError
  end.

(** [BACKSLASH]: the one-character escapes. *)
Definition backslash (c : N) : option N :=
  if c =? QUOTE then Some (QUOTE)
  else if c =? ch "\" then Some (ch "\")
  else if c =? ch "/" then Some (ch "/")
  else if c =? ch "b" then Some 0x08
  else if c =? ch "f" then Some 0x0C
  else if c =? ch "n" then Some 0x0A
  else if c =? ch "r" then Some 0x0D
  else if c =? ch "t" then Some 0x09
  else None.

(** [scanstring(s, end, strict=True)], from the character after the
    opening quote; gives the text and what follows the closing quote. *)
Fixpoint scanstring_fuel (n : nat) (s : str) : result (str * str) :=
  match n, s with
  | O, _ => Raise JSONDecodeError
  | _, [] => Raise JSONDecodeError                    (* unterminated *)
  | S n, c :: rest =>
      if c =? QUOTE then Ok ([], rest)
      else if c =? ch "\" then
        match rest with
        | [] => Raise JSONDecodeError
        | esc :: rest1 =>
            if esc =? ch "u" then
              '(uni, rest2) ← decode_uXXXX rest1;
              match rest2 with
              | b :: u :: rest3 =>
                  if is_high_surrogate uni && (b =? ch "\") && (u =? ch "u") then
                    '(uni2, rest4) ← decode_uXXXX rest3;
                    if is_low_surrogate uni2 then
                      '(text, after) ← scanstring_fuel n rest4;
                      Ok (0x10000 + N.lor (N.shiftl (uni - 0xD800) 10)
                                          (uni2 - 0xDC00) :: text, after)
                    else
                      '(text, after) ← scanstring_fuel n rest2;
                      Ok (uni :: text, after)
                  else
                    '(text, after) ← scanstring_fuel n rest2;
                    Ok (uni :: text, after)
              | _ =>
                  '(text, after) ← scanstring_fuel n rest2;
                  Ok (uni :: text, after)
              end
            else
              match backslash esc with
              | Some c' =>
                  '(text, after) ← scanstring_fuel n rest1;
                  Ok (c' :: text, after)
              | None => Raise JSONDecodeError
              end
        end
      else if c <? 0x20 then Raise JSONDecodeError      (* control character *)
      else
        '(text, after) ← scanstring_fuel n rest;
        Ok (c :: text, after)
  end.

Definition scanstring (s : str) : result (str * str) :=
  scanstring_fuel (length s) s.

(** The longest run of digits at the head. *)
Fixpoint span_digits (s : str) : str * str :=
  match s with
  | c :: rest =>
      if is_digit c then let '(d, r) := span_digits rest in (c :: d, r)
      else ([], s)
  | [] => ([], [])
  end.

(** [NUMBER_RE]: the integer part, the fraction and the exponent (empty
    when absent), and the rest of the input. *)
Definition match_number (s : str) : option (str * str * str * str) :=
  let '(sign, s1) :=
    match s with
    | c :: r => if c =? ch "-" then ([c], r) else ([], s)
    | [] => ([], s)
    end in
  match s1 with
  | [] => None
  | c :: r =>
      if is_digit c then
        let '(int_digits, s2) :=
          if c =? ch "0" then ([c], r) else span_digits s1 in
        let '(frac, s3) :=
          match s2 with
          | dot :: r2 =>
              if dot =? ch "." then
                match span_digits r2 with
                | ([], _) => ([], s2)
                | (d, r3) => (dot :: d, r3)
                end
              else ([], s2)
          | [] => ([], s2)
          end in
        let '(exp, s4) :=
          match s3 with
          | e :: r3 =>
              if (e =? ch "e") || (e =? ch "E") then
                let '(esign, r4) :=
                  match r3 with
                  | g :: r4 =>
                      if (g =? ch "-") || (g =? ch "+") then ([g], r4) else ([], r3)
                  | [] => ([], r3)
                  end in
                match span_digits r4 with
                | ([], _) => ([], s3)
                | (d, r5) => (e :: esign ++ d, r5)
                end
              else ([], s3)
          | [] => ([], s3)
          end in
        Some (sign ++ int_digits, frac, exp, s4)
      else None
  end.

(** [int(text)] for an optional sign and decimal digits. *)
Definition int_of_digits (text : str) : Z :=
  let value (digits : str) : Z :=
    fold_left (fun acc c => (acc * 10 + Z.of_N (c - ch "0"))%Z) digits 0%Z in
  match text with
  | c :: digits => if c =? ch "-" then (- value digits)%Z else value text
  | [] => 0%Z
  end.

(** [sys.get_int_max_str_digits()] *)
Definition int_max_str_digits : nat := 4300.

Definition count_digits (text : str) : nat := length (filter (fun c => is_digit c) text).

(** [s[:len(word)] == word] *)
Fixpoint after_prefix (word s : str) : option str :=
  match word, s with
  | [], _ => Some s
  | w :: word', c :: s' => if w =? c then after_prefix word' s' else None
  | _ :: _, [] => None
  end.

(** [scan_once], [JSONArray] and [JSONObject].  [depth] is the recursion
    depth the interpreter still allows; [steps] bounds the number of calls
    by the length of the input. *)
Fixpoint scan_once (steps depth : nat) (s : str) : result (PyVal * str) :=
  match steps with
  | O => Raise MemoryError
  | S steps =>
      match s with
      | [] => Raise JSONDecodeError                   (* expecting value *)
      | c :: rest =>
          if c =? QUOTE then
            '(text, after) ← scanstring rest; Ok (VStr text, after)
          else if c =? ch "{" then
            match depth with
            | O => Raise RecursionError
            | S depth =>
                let s1 := skip_ws rest in
                match s1 with
                | c1 :: rest1 =>
                    if c1 =? ch "}" then Ok (VDict [], rest1)
                    else if c1 =? QUOTE then
                      '(pairs, after) ← object_pairs steps depth rest1;
                      Ok (VDict (dict_of_pairs pairs), after)
                    else Raise JSONDecodeError
                | [] => Raise JSONDecodeError
                end
            end
          else if c =? ch "[" then
            match depth with
            | O => Raise RecursionError
            | S depth =>
                let s1 := skip_ws rest in
                match s1 with
                | c1 :: rest1 =>
                    if c1 =? ch "]" then Ok (VList [], rest1)
                    else
                      '(values, after) ← array_values steps depth s1;
                      Ok (VList values, after)
                | [] => Raise JSONDecodeError
                end
            end
          else
            match after_prefix (lit "null") s, after_prefix (lit "true") s,
                  after_prefix (lit "false") s with
            | Some after, _, _ => Ok (VNone, after)
            | _, Some after, _ => Ok (VBool true, after)
            | _, _, Some after => Ok (VBool false, after)
            | None, None, None =>
                match match_number s with
                | Some (integer, frac, exp, after) =>
                    match frac, exp with
                    | [], [] =>
                        if (int_max_str_digits <? count_digits integer)%nat
                        then Raise ValueError
                        else Ok (VInt (int_of_digits integer), after)
                    | _, _ => Ok (VFloat (FLiteral (integer ++ frac ++ exp)), after)
                    end
                | None =>
                    match after_prefix (lit "NaN") s,
                          after_prefix (lit "Infinity") s,
                          after_prefix (lit "-Infinity") s with
                    | Some after, _, _ => Ok (VFloat FNaN, after)
                    | _, Some after, _ => Ok (VFloat FInf, after)
                    | _, _, Some after => Ok (VFloat FNegInf, after)
                    | None, None, None => Raise JSONDecodeError
                    end
                end
            end
      end
  end

(** The values of an array, from the first value to the closing bracket. *)
with array_values (steps depth : nat) (s : str) : result (list PyVal * str) :=
  match steps with
  | O => Raise MemoryError
  | S steps =>
      '(value, after) ← scan_once steps depth s;
      match skip_ws after with
      | c :: rest =>
          if c =? ch "]" then Ok ([value], rest)
          else if c =? ch "," then
            '(values, after') ← array_values steps depth (skip_ws rest);
            Ok (value :: values, after')
          else Raise JSONDecodeError
      | [] => Raise JSONDecodeError
      end
  end

(** The pairs of an object, from the character after the quote that opens
    a key to the closing brace. *)
with object_pairs (steps depth : nat) (s : str)
  : result (list (str * PyVal) * str) :=
  match steps with
  | O => Raise MemoryError
  | S steps =>
      '(key, after_key) ← scanstring s;
      match skip_ws after_key with
      | colon :: rest =>
          if colon =? ch ":" then
            '(value, after) ← scan_once steps depth (skip_ws rest);
            match skip_ws after with
            | c :: rest' =>
                if c =? ch "}" then Ok ([(key, value)], rest')
                else if c =? ch "," then
                  match skip_ws rest' with
                  | q :: rest'' =>
                      if q =? QUOTE then
                        '(pairs, after') ← object_pairs steps depth rest'';
                        Ok ((key, value) :: pairs, after')
                      else Raise JSONDecodeError
                  | [] => Raise JSONDecodeError
                  end
                else Raise JSONDecodeError
            | [] => Raise JSONDecodeError
            end
          else Raise JSONDecodeError
      | [] => Raise JSONDecodeError
      end
  end.

(** [JSONDecoder().decode(s)]: one value between optional whitespace. *)
Definition json_decode (depth : nat) (s : str) : result PyVal :=
  '(obj, after) ← scan_once (2 * length s + 2) depth (skip_ws s);
  match skip_ws after with
  | [] => Ok obj
  | _ :: _ => Raise JSONDecodeError                    (* extra data *)
  end.

(** [json.loads(b)] for [b : bytes]. *)
Definition json_loads_bytes (depth : nat) (b : bytes) : result PyVal :=
  s ← json_decode_bytes b;
  json_decode depth s.

(** ** [urllib.parse]: the parser behind [request.query_params] *)

(** [s.split(sep)] *)
Fixpoint split_on (sep : N) (s : str) : list str :=
  match s with
  | [] => [[]]
  | c :: rest =>
      if c =? sep then [] :: split_on sep rest
      else
        match split_on sep rest with
        | first :: others => (c :: first) :: others
        | [] => [[c]]
        end
  end.

(** [s.split("=", 1)], with the missing value of a bare name set to [""]
    ([keep_blank_values=True]). *)
Fixpoint split_name_value (s : str) : str * str :=
  match s with
  | [] => ([], [])
  | c :: rest =>
      if c =? ch "=" then ([], rest)
      else let '(name, value) := split_name_value rest in (c :: name, value)
  end.

Definition byte_of_code (c : N) : byte :=
  match Byte.of_N c with
  | Some b => b
  | None => "?"%byte
  end.

(** [unquote_to_bytes(run)] for a run of ASCII characters: [%xx] with two
    hexadecimal digits is one octet, any other [%] stands for itself. *)
Fixpoint unquote_to_bytes (run : str) : bytes :=
  match run with
  | [] => []
  | c :: rest =>
      if c =? ch "%" then
        match rest with
        | h1 :: h2 :: rest' =>
            match hex_value h1, hex_value h2 with
            | Some a, Some b => byte_of_code (a * 16 + b) :: unquote_to_bytes rest'
            | _, _ => byte_of_code c :: unquote_to_bytes rest
            end
        | _ => byte_of_code c :: unquote_to_bytes rest
        end
      else byte_of_code c :: unquote_to_bytes rest
  end.

(** [_asciire.split(s)]: the maximal runs of ASCII and of other characters. *)
Fixpoint ascii_runs (s : str) : list (bool * str) :=
  match s with
  | [] => []
  | c :: rest =>
      let a := c <? 0x80 in
      match ascii_runs rest with
      | (a', run) :: runs =>
          if Bool.eqb a a' then (a, c :: run) :: runs
          else (a, [c]) :: (a', run) :: runs
      | [] => [(a, [c])]
      end
  end.

(** [b.decode("utf-8", "replace")], which cannot raise. *)
Definition utf8_replace (b : bytes) : str :=
  match utf8_decode Replace b with
  | Ok s => s
  | Raise _ => []
  end.

(** [unquote(s)] with the defaults [encoding="utf-8", errors="replace"]. *)
Definition unquote (s : str) : str :=
  if existsb (fun c => c =? ch "%") s then
    flat_map (fun '(is_ascii, run) =>
                if is_ascii : bool then utf8_replace (unquote_to_bytes run)
                else run)
             (ascii_runs s)
  else s.

(** [s.replace("+", " ")] *)
Definition plus_to_space (s : str) : str :=
  map (fun c => if c =? ch "+" then ch " " else c) s.

(** The pair of one argument [name=value] of the query string. *)
Definition argument_pair (name_value : str) : str * str :=
  let '(name, value) := split_name_value name_value in
  (unquote (plus_to_space name), unquote (plus_to_space value)).

(** [parse_qsl(qs, keep_blank_values=True)] *)
Definition parse_qsl (qs : str) : list (str * str) :=
  let query_args := match qs with [] => [] | _ => split_on (ch "&") qs end in
  flat_map (fun name_value =>
              match name_value with
              | [] => []
              | _ => [argument_pair name_value]
              end)
           query_args.

(** ** The interpreter *)

(** What the handler asks of the interpreter: the codec registry and the
    JSON decoder. *)
Class Runtime : Type := {
  (** decoding [b] with [errors="replace"] by the codec the registry finds
      under a name; [LookupError] when it finds none *)
  codecs_decode : str -> bytes -> result str;
  (** [json.loads(b)] *)
  json_loads : bytes -> result PyVal
}.

(** [encodings.normalize_encoding], after the lower-casing the registry
    applies: runs of other characters than letters, digits and dots become
    one underscore, dropped at both ends. *)
Definition is_alnum (c : N) : bool :=
  is_digit c || ((ch "a" <=? c) && (c <=? ch "z")) || ((ch "A" <=? c) && (c <=? ch "Z")).

Definition to_lower (c : N) : N :=
  if (ch "A" <=? c) && (c <=? ch "Z") then c + 32 else c.

Fixpoint normalize_from (punct : bool) (seen : bool) (encoding : str) : str :=
  match encoding with
  | [] => []
  | c :: rest =>
      if is_alnum c || (c =? ch ".") then
        (if punct && seen then [ch "_"] else [])
          ++ to_lower c :: normalize_from false true rest
      else normalize_from true seen rest
  end.

Definition normalize_encoding (encoding : str) : str :=
  normalize_from false false encoding.

(** The codec modules of the instance. *)
Inductive codec : Type := utf_8 | latin_1 | ascii | undefined.

(** The modules of the [encodings] package. *)
Definition modules : list (string * codec) :=
  [ ("utf_8", utf_8); ("latin_1", latin_1); ("ascii", ascii);
    ("undefined", undefined) ]%string.

(** [encodings.aliases.aliases], for those modules. *)
Definition aliases : list (string * string) :=
  [ ("utf8", "utf_8"); ("u8", "utf_8"); ("utf", "utf_8");
    ("utf8_ucs2", "utf_8"); ("utf8_ucs4", "utf_8"); ("cp65001", "utf_8");
    ("latin1", "latin_1"); ("latin", "latin_1"); ("l1", "latin_1");
    ("iso_8859_1", "latin_1"); ("iso8859_1", "latin_1");
    ("iso8859", "latin_1"); ("8859", "latin_1"); ("cp819", "latin_1");
    ("ibm819", "latin_1"); ("csisolatin1", "latin_1");
    ("iso_8859_1_1987", "latin_1"); ("iso_ir_100", "latin_1");
    ("us_ascii", "ascii"); ("us", "ascii"); ("646", "ascii");
    ("ansi_x3.4_1968", "ascii"); ("ansi_x3_4_1968", "ascii");
    ("ansi_x3.4_1986", "ascii"); ("cp367", "ascii"); ("ibm367", "ascii");
    ("csascii", "ascii"); ("iso646_us", "ascii");
    ("iso_646.irv_1991", "ascii"); ("iso_ir_6", "ascii") ]%string.

(** [d.get(key)] on a table with literal keys. *)
Definition table_get {A} (key : str) (table : list (string * A)) : option A :=
  snd <$> find (fun entry => bool_decide (lit (fst entry) = key)) table.

(** The first of the names that is a module; a name with a dot names none. *)
Fixpoint find_module (modnames : list str) : option codec :=
  match modnames with
  | [] => None
  | modname :: rest =>
      if existsb (fun c => c =? ch ".") modname then find_module rest
      else
        match table_get modname modules with
        | Some c => Some c
        | None => find_module rest
        end
  end.

(** [encodings.search_function(encoding)]: the module the alias of the
    normalized name names, else the module of that name.  [None] is
    [LookupError]. *)
Definition search_function (encoding : str) : option codec :=
  let norm_encoding := normalize_encoding encoding in
  let dotless := map (fun c => if c =? ch "." then ch "_" else c) norm_encoding in
  let aliased_encoding :=
    match table_get norm_encoding aliases with
    | Some m => Some m
    | None => table_get dotless aliases
    end in
  let modnames :=
    match aliased_encoding with
    | Some m => [lit m; norm_encoding]
    | None => [norm_encoding]
    end in
  find_module modnames.

(** [codec.decode(b, errors="replace")] *)
Definition codec_decode (c : codec) (b : bytes) : result str :=
  match c with
  | utf_8 => utf8_decode Replace b
  | latin_1 => Ok (latin1_decode b)
  | ascii => ascii_decode Replace b
  | undefined => Raise UnicodeError
  end.

Definition cpython_bytes_decode (encoding : str) (b : bytes) : result str :=
  match search_function encoding with
  | Some c => codec_decode c b
  | None => Raise LookupError
  end.

(** [sys.getrecursionlimit()]: the nesting the JSON decoder may reach before
    the interpreter raises [RecursionError]. *)
Definition recursion_limit : nat := 1000.

(** An interpreter whose [encodings] package holds the four modules above. *)
Definition cpython : Runtime := {|
  codecs_decode := cpython_bytes_decode;
  json_loads := json_loads_bytes recursion_limit
|}.

(** [b.decode(encoding, errors="replace")]: a name with a NUL character is
    refused; UTF-8 is built in and does not go through the registry. *)
Definition bytes_decode `{rt : Runtime} (encoding : str) (b : bytes) : result str :=
  if existsb (fun c => c =? 0) encoding then Raise ValueError
  else
    let lower := normalize_encoding encoding in
    if bool_decide (lower = lit "utf_8") || bool_decide (lower = lit "utf8")
    then utf8_decode Replace b
    else codecs_decode encoding b.

(** [try: body except <caught>: handler] *)
Definition try_except {A} (body : result A) (caught : exn -> bool)
    (handler : result A) : result A :=
  match body with
  | Ok a => Ok a
  | Raise e => if caught e then handler else Raise e
  end.

(** ** The request object *)

Module Request.

(** What the transport hands to the handler: the entries of the ASGI scope
    the handler reads, the other entries of the scope, the attributes
    Starlette derives from the scope by itself (URL reconstruction, cookie
    parsing), and the body. *)
Record t : Type := {
  method : str;                          (* scope["method"] *)
  http_version : str;                    (* scope["http_version"] *)
  scheme : str;                          (* scope["scheme"] *)
  path : str;                            (* scope["path"] *)
  query_string : bytes;                  (* scope["query_string"] *)
  headers : list (bytes * bytes);        (* scope["headers"] *)
  client : option (str * Z);             (* scope["client"] *)
  server : option (str * option Z);      (* scope["server"] *)
  path_params : list (str * PyVal);      (* scope["path_params"] *)
  extra : gmap str PyVal;                (* every other entry of the scope *)
  url : str;                             (* str(request.url) *)
  url_path : str;                        (* request.url.path *)
  base_url : str;                        (* str(request.base_url) *)
  cookies : list (str * str);            (* request.cookies *)
  body : bytes                           (* await request.body() *)
}.

End Request.

(** The values the scope holds for the entries the handler reads. *)
Definition header_value (h : bytes * bytes) : PyVal :=
  VTuple [VBytes (fst h); VBytes (snd h)].

Definition address_value (a : option (str * Z)) : PyVal :=
  match a with
  | Some (host, port) => VTuple [VStr host; VInt port]
  | None => VNone
  end.

Definition server_value (a : option (str * option Z)) : PyVal :=
  match a with
  | Some (host, Some port) => VTuple [VStr host; VInt port]
  | Some (host, None) => VTuple [VStr host; VNone]
  | None => VNone
  end.

(** [request.scope]: the entries above, over the other entries. *)
Definition request_scope (request : Request.t) : gmap str PyVal :=
  <[lit "method" := VStr (Request.method request)]>
  (<[lit "http_version" := VStr (Request.http_version request)]>
  (<[lit "scheme" := VStr (Request.scheme request)]>
  (<[lit "path" := VStr (Request.path request)]>
  (<[lit "query_string" := VBytes (Request.query_string request)]>
  (<[lit "headers" := VList (map header_value (Request.headers request))]>
  (<[lit "client" := address_value (Request.client request)]>
  (<[lit "server" := server_value (Request.server request)]>
  (<[lit "path_params" := VDict (Request.path_params request)]>
  (Request.extra request))))))))).

(** [scope.get(key)] *)
Definition scope_get (key : str) (scope : gmap str PyVal) : PyVal :=
  default VNone (scope !! key).

(** [a == b] on bytes. *)
Definition bytes_eqb (a b : bytes) : bool :=
  bool_decide (map Byte.to_N a = map Byte.to_N b).

(** [request.headers.get(key, default)]: the value of the first header of
    that name. *)
Definition headers_get (key : string) (default : string) (request : Request.t)
  : str :=
  match find (fun h => bytes_eqb (fst h) (blit key)) (Request.headers request) with
  | Some h => latin1_decode (snd h)
  | None => lit default
  end.

(** [request.query_params.multi_items()] *)
Definition query_params_multi_items (request : Request.t) : list (str * str) :=
  parse_qsl (latin1_decode (Request.query_string request)).

(** [await request.json()] *)
Definition request_json `{rt : Runtime} (request : Request.t) : result PyVal :=
  json_loads (Request.body request).

(** A name or a value as a headers object exposes it. *)
Inductive atom : Type :=
  | ABytes (b : bytes)
  | AStr (s : str).

(** The access patterns [_headers_to_list] probes with [hasattr]. *)
Record HeadersObject : Type := {
  raw : option (list (atom * atom));
  multi_items : option (list (atom * atom));
  items : option (list (atom * atom))
}.

(** [request.headers]: Starlette's [Headers] has [raw], and [items] as any
    mapping. *)
Definition request_headers (request : Request.t) : HeadersObject :=
  {| raw := Some (map (fun h => (ABytes (fst h), ABytes (snd h)))
                      (Request.headers request));
     multi_items := None;
     items := Some (map (fun h =>
                           (AStr (latin1_decode (fst h)),
                            AStr (match find (fun h' => bytes_eqb (fst h') (fst h))
                                               (Request.headers request) with
                                  | Some h' => latin1_decode (snd h')
                                  | None => []
                                  end)))
                        (Request.headers request)) |}.

(** ** The handler *)

(** The keys [_normalize_scope] skips. *)
Definition skipped_keys : list str :=
  [lit "headers"; lit "raw_headers"; lit "app"; lit "router"; lit "endpoint";
   lit "state"].

(** [isinstance(value, (str, int, float, bool)) or value is None] *)
Definition is_scalar (value : PyVal) : bool :=
  match value with
  | VStr _ | VInt _ | VFloat _ | VBool _ | VNone => true
  | _ => false
  end.

(** The body of the loop of [_normalize_scope]. *)
Definition normalize_entry (key : str) (value : PyVal)
    (serialisable : gmap str PyVal) : gmap str PyVal :=
  if bool_decide (key ∈ skipped_keys) then serialisable
  else if is_scalar value then <[key := value]> serialisable
  else
    match value with
    | VList items | VTuple items =>
        if forallb is_scalar items then <[key := VList items]> serialisable
        else serialisable
    | _ => serialisable
    end.

(** Lines 10-23: the loop over [scope.items()], from an empty dictionary. *)
Definition _normalize_scope (scope : gmap str PyVal) : gmap str PyVal :=
  map_fold normalize_entry ∅ scope.

(** Lines 29-32: bytes are read as latin-1, text is kept. *)
Definition _to_str (value : atom) : str :=
  match value with
  | ABytes b => latin1_decode b
  | AStr s => s
  end.

(** An entry [{"name": ..., "value": ...}]. *)
Record HeaderEntry : Type := { name : str; value : str }.

(** Lines 26-44: the first access pattern the object has gives the items;
    each item gives one entry. *)
Definition _headers_to_list (headers : HeadersObject) : list HeaderEntry :=
  let items :=
    match raw headers with
    | Some raw => raw
    | None =>
        match multi_items headers with
        | Some multi_items => multi_items
        | None =>
            match items headers with
            | Some items => items
            | None => []
            end
        end
    end in
  map (fun item => {| name := _to_str (fst item); value := _to_str (snd item) |})
      items.

Module Response.

(** The dictionary [echo] returns. *)
Record t : Type := {
  method : str;
  http_version : PyVal;
  scheme : PyVal;
  url : str;
  base_url : str;
  path : str;
  path_params : list (str * PyVal);
  query_string : PyVal;
  query_params : list (str * str);
  headers : list HeaderEntry;
  cookies : list (str * str);
  client : PyVal * PyVal;                (* host, port *)
  server : PyVal * PyVal;                (* host, port *)
  body_text : option str;                (* body.text *)
  body_base64 : option str;              (* body.base64 *)
  body_length : Z;                       (* body.length *)
  json : PyVal;
  scope : gmap str PyVal
}.

End Response.

(** [if raw_body:] *)
Definition nonempty (raw_body : bytes) : bool :=
  match raw_body with
  | [] => false
  | _ :: _ => true
  end.

(** Lines 53-58: the text of the body. *)
Definition body_text `{rt : Runtime} (request : Request.t) : result (option str) :=
  let raw_body := Request.body request in
  if nonempty raw_body then
    text ← try_except
             (bytes_decode (headers_get "content-type" "utf-8" request) raw_body)
             is_LookupError
             (bytes_decode (lit "utf-8") raw_body);
    Ok (Some text)
  else Ok None.

(** Lines 60-65: the JSON value of the body. *)
Definition json_payload `{rt : Runtime} (request : Request.t) : result PyVal :=
  let raw_body := Request.body request in
  if nonempty raw_body then
    try_except (request_json request) is_Exception (Ok VNone)
  else Ok VNone.

(** Line 67: the base64 text of the body. *)
Definition body_base64 (request : Request.t) : result (option str) :=
  let raw_body := Request.body request in
  if nonempty raw_body then
    text ← ascii_decode_strict (b64encode raw_body);
    Ok (Some text)
  else Ok None.

(** Line 82: the query string as text. *)
Definition query_string_text (scope : gmap str PyVal) : PyVal :=
  match scope !! lit "query_string" with
  | Some (VBytes b) => VStr (latin1_decode b)
  | Some v => v
  | None => VNone
  end.

(** Lines 51-95.  [request.client] and [scope.get("server")] are [None] or a
    pair by the type of the request, so that unpacking them cannot fail. *)
Definition echo `{rt : Runtime} (request : Request.t) : result Response.t :=
  let raw_body := Request.body request in
  body_text ← body_text request;
  json_payload ← json_payload request;
  body_base64 ← body_base64 request;
  let query_params := query_params_multi_items request in
  let '(client_host, client_port) :=
    match Request.client request with
    | Some (host, port) => (VStr host, VInt port)
    | None => (VNone, VNone)
    end in
  let '(server_host, server_port) :=
    match Request.server request with
    | Some (host, Some port) => (VStr host, VInt port)
    | Some (host, None) => (VStr host, VNone)
    | None => (VNone, VNone)
    end in
  Ok {| Response.method := Request.method request;
        Response.http_version := scope_get (lit "http_version") (request_scope request);
        Response.scheme := scope_get (lit "scheme") (request_scope request);
        Response.url := Request.url request;
        Response.base_url := Request.base_url request;
        Response.path := Request.url_path request;
        Response.path_params := Request.path_params request;
        Response.query_string := query_string_text (request_scope request);
        Response.query_params := query_params;
        Response.headers := _headers_to_list (request_headers request);
        Response.cookies := Request.cookies request;
        Response.client := (client_host, client_port);
        Response.server := (server_host, server_port);
        Response.body_text := body_text;
        Response.body_base64 := body_base64;
        Response.body_length := Z.of_nat (length raw_body);
        Response.json := json_payload;
        Response.scope := _normalize_scope (request_scope request) |}.

(** ** The application *)

(** A route of the router: a path without parameters and its methods. *)
Inductive endpoint : Type := Echo | Documentation.

Record Route : Type := {
  route_path : string;
  route_methods : list string;
  route_endpoint : endpoint
}.

(** The decorator on [echo]. *)
Definition echo_methods : list string :=
  ["GET"; "POST"; "PUT"; "PATCH"; "DELETE"; "OPTIONS"; "HEAD"]%string.

Definition echo_route : Route :=
  {| route_path := "/"; route_methods := echo_methods; route_endpoint := Echo |}.

(** The routes [FastAPI(...)] registers by itself, then the one the
    decorator adds. *)
Definition routes : list Route :=
  [ {| route_path := "/openapi.json"; route_methods := ["GET"; "HEAD"];
       route_endpoint := Documentation |};
    {| route_path := "/docs"; route_methods := ["GET"; "HEAD"];
       route_endpoint := Documentation |};
    {| route_path := "/docs/oauth2-redirect"; route_methods := ["GET"; "HEAD"];
       route_endpoint := Documentation |};
    {| route_path := "/redoc"; route_methods := ["GET"; "HEAD"];
       route_endpoint := Documentation |};
    echo_route ]%string.

(** [Route.matches]: the path must be the route's; the method decides
    between a full and a partial match. *)
Inductive Match : Type := NONE | PARTIAL | FULL.

Definition route_matches (route : Route) (path method : str) : Match :=
  if bool_decide (path = lit (route_path route)) then
    if bool_decide (method ∈ map lit (route_methods route)) then FULL else PARTIAL
  else NONE.

(** What the application answers. *)
Inductive Answer : Type :=
  | Json200 (content : Response.t)        (* 200, the handler's dictionary *)
  | Docs200                               (* 200, a documentation page *)
  | Redirect307                           (* the same path with or without "/" *)
  | NotFound404
  | MethodNotAllowed405
  | ServerError500 (e : exn).             (* the handler raised *)

Definition handle `{rt : Runtime} (route : Route) (request : Request.t) : Answer :=
  match route_endpoint route with
  | Documentation => Docs200
  | Echo =>
      match echo request with
      | Ok content => Json200 content
      | Raise e => ServerError500 e
      end
  end.

(** [s.lstrip("/")] and [s.rstrip("/")] *)
Fixpoint lstrip_slash (s : str) : str :=
  match s with
  | c :: rest => if c =? ch "/" then lstrip_slash rest else s
  | [] => []
  end.

Definition rstrip_slash (s : str) : str := rev (lstrip_slash (rev s)).

Definition ends_with_slash (s : str) : bool :=
  match rev s with
  | c :: _ => c =? ch "/"
  | [] => false
  end.

Definition is_full (m : Match) : bool :=
  match m with FULL => true | _ => false end.

Definition is_partial (m : Match) : bool :=
  match m with PARTIAL => true | _ => false end.

Definition is_none (m : Match) : bool :=
  match m with NONE => true | _ => false end.

(** [Router.app]: the first full match handles the request; failing that, a
    partial match answers 405; failing that, a path that matches with its
    trailing slash toggled is redirected; anything else is not found. *)
Definition app `{rt : Runtime} (request : Request.t) : Answer :=
  let path := Request.path request in
  let method := Request.method request in
  match find (fun route => is_full (route_matches route path method)) routes with
  | Some route => handle route request
  | None =>
      match find (fun route => is_partial (route_matches route path method)) routes with
      | Some _ => MethodNotAllowed405
      | None =>
          let redirect_path :=
            if ends_with_slash path then rstrip_slash path
            else path ++ [ch "/"] in
          if negb (bool_decide (path = lit "/"))
             && existsb (fun route =>
                           negb (is_none (route_matches route redirect_path method)))
                        routes
          then Redirect307
          else NotFound404
      end
  end.

(** ** Requests of the scenarios *)

(** A bytes literal in which ['] stands for the double quote. *)
Definition quoted (s : string) : bytes :=
  map (fun b => if Byte.eqb b "'"%byte then x22 else b) (blit s).

(** The scope entries a server and the framework add besides the ones the
    handler reads. *)
Definition transport_extra (path : string) : gmap str PyVal :=
  <[lit "type" := VStr (lit "http")]>
  (<[lit "asgi" := VDict [(lit "version", VStr (lit "3.0"))]]>
  (<[lit "root_path" := VStr []]>
  (<[lit "raw_path" := VBytes (blit path)]>
  (<[lit "app" := VObject "FastAPI"]>
  (<[lit "router" := VObject "APIRouter"]>
  (<[lit "endpoint" := VObject "echo"]>
  (<[lit "state" := VDict []]>
  (<[lit "extensions" := VDict []]> ∅)))))))).

(** The request a client sends to a server on [127.0.0.1:8000]. *)
Definition http_request (method path query : string)
    (headers : list (bytes * bytes)) (body : bytes) : Request.t :=
  {| Request.method := lit method;
     Request.http_version := lit "1.1";
     Request.scheme := lit "http";
     Request.path := lit path;
     Request.query_string := blit query;
     Request.headers := headers;
     Request.client := Some (lit "127.0.0.1", 50000%Z);
     Request.server := Some (lit "127.0.0.1", Some 8000%Z);
     Request.path_params := [];
     Request.extra := transport_extra path;
     Request.url :=
       lit "http://127.0.0.1:8000" ++ lit path
         ++ match query with
            | EmptyString => []
            | _ => lit "?" ++ lit query
            end;
     Request.url_path := lit path;
     Request.base_url := lit "http://127.0.0.1:8000/";
     Request.cookies := [];
     Request.body := body |}.


(** [GET /] with [Accept: text/plain]. *)
Definition get_root : Request.t :=
  http_request "GET" "/" "" [(blit "accept", blit "text/plain")] [].

(** [POST /] with the body [{"x":1}] and [Content-Type: application/json]. *)
Definition post_json : Request.t :=
  http_request "POST" "/" "" [(blit "content-type", blit "application/json")]
    (quoted "{'x':1}").

(** [POST /] with the octet E9 and [Content-Type: text/plain; charset=latin-1]. *)
Definition post_latin1 : Request.t :=
  http_request "POST" "/" ""
    [(blit "content-type", blit "text/plain; charset=latin-1")] [xe9].

(** [POST /] with [Content-Type: undefined]. *)
Definition post_undefined : Request.t :=
  http_request "POST" "/" "" [(blit "content-type", blit "undefined")] (blit "hello").

(** [POST /] with the octets C3 A9 and [Content-Type: ascii]. *)
Definition post_ascii : Request.t :=
  http_request "POST" "/" "" [(blit "content-type", blit "ascii")] [xc3; xa9].

(** [POST /] with the bodies [null] and [not-json]. *)
Definition post_null : Request.t :=
  http_request "POST" "/" "" [] (blit "null").

Definition post_not_json : Request.t :=
  http_request "POST" "/" "" [] (blit "not-json").

(** [GET /?k=1&k=2] with [X-Tag: a] and [X-Tag: b]. *)
Definition get_duplicates : Request.t :=
  http_request "GET" "/" "k=1&k=2"
    [(blit "x-tag", blit "a"); (blit "x-tag", blit "b")] [].

(** [text.encode("ascii")] *)
Fixpoint ascii_encode (text : str) : option bytes :=
  match text with
  | [] => Some []
  | c :: rest =>
      if c <? 0x80 then
        b ← Byte.of_N c; tail ← ascii_encode rest; Some (b :: tail)
      else None
  end.

(** [bool(s)] on text. *)
Definition nonempty_text (s : str) : bool :=
  match s with
  | [] => false
  | _ :: _ => true
  end.

(** A query string that spells pairs out: [k1=v1&k2=v2&...]. *)
Fixpoint join_pairs (pairs : list (str * str)) : str :=
  match pairs with
  | [] => []
  | (k, v) :: rest =>
      k ++ ch "=" :: v
        ++ match rest with
           | [] => []
           | _ :: _ => ch "&" :: join_pairs rest
           end
  end.

(** Text without the characters a query string gives a meaning to. *)
Definition is_plain (c : N) : bool :=
  negb ((c =? ch "&") || (c =? ch "=") || (c =? ch "%") || (c =? ch "+")).

Definition plain_pair (kv : str * str) : Prop :=
  forallb is_plain (fst kv) = true /\ forallb is_plain (snd kv) = true.

(** The entry of a header as the transport received it. *)
Definition header_entry (h : bytes * bytes) : HeaderEntry :=
  {| name := latin1_decode (fst h); value := latin1_decode (snd h) |}.

(** What the loop of [_normalize_scope] leaves of one entry. *)
Definition snapshot_of (key : str) (value : PyVal) : option PyVal :=
  if bool_decide (key ∈ skipped_keys) then None
  else if is_scalar value then Some value
  else
    match value with
    | VList items | VTuple items =>
        if forallb is_scalar items then Some (VList items) else None
    | _ => None
    end.

(** The wording of the specification, for comparison with the code: the
    kinds of scalar it lists, a sequence of scalars all of one kind, and the
    entries it says are retained. *)
Definition same_kind (a b : PyVal) : bool :=
  match a, b with
  | VStr _, VStr _ => true
  | (VInt _ | VFloat _), (VInt _ | VFloat _) => true
  | VBool _, VBool _ => true
  | VNone, VNone => true
  | _, _ => false
  end.

Definition spec_homogeneous (items : list PyVal) : bool :=
  match items with
  | [] => true
  | first :: _ => forallb (fun item => same_kind first item) items
  end.

Definition spec_retained (key : str) (value : PyVal) : bool :=
  negb (bool_decide (key ∈ skipped_keys))
  && (is_scalar value
      || match value with
         | VList items | VTuple items => spec_homogeneous items
         | _ => false
         end).

(** The numbers below a bound, for checks by enumeration. *)
Definition below (k : nat) : list N := map N.of_nat (seq 0 k).

(** ** Further requests and encodings *)

(** [text.encode("latin-1")] *)
Fixpoint latin1_encode (text : str) : option bytes :=
  match text with
  | [] => Some []
  | c :: rest => b ← Byte.of_N c; tail ← latin1_encode rest; Some (b :: tail)
  end.




(** [POST /] with the body [héllo] in UTF-8 and no [Content-Type]. *)
Definition post_utf8 : Request.t :=
  http_request "POST" "/" "" [] [x68; xc3; xa9; x6c; x6c; x6f].

(** Percent-encoding of octets, as a client writes them in a query string:
    [%XX] with upper-case hexadecimal digits for every octet. *)
Definition hex_digit (n : N) : N :=
  if n <? 10 then ch "0" + n else ch "A" + (n - 10).

Definition percent_encode (b : bytes) : str :=
  flat_map (fun c => [ch "%"; hex_digit (Byte.to_N c / 16);
                      hex_digit (Byte.to_N c mod 16)]) b.

(** Text without a given character. *)
Definition no_char (sep : N) (s : str) : Prop :=
  forallb (fun c => negb (c =? sep)) s = true.

(** A query string that spells percent-encoded pairs out. *)
Definition join_encoded (pairs : list (bytes * bytes)) : str :=
  join_pairs (map (fun kv => (percent_encode (fst kv), percent_encode (snd kv)))
                  pairs).

(** [GET /?%63%61%66%C3%A9=%FF]: the key [café] in UTF-8, the value FF. *)
Definition get_encoded : Request.t :=
  http_request "GET" "/" "%63%61%66%C3%A9=%FF" [] [].

(** Text in which a client wrote every space as [+], as forms do. *)
Definition spaces_as_plus (s : str) : str :=
  map (fun c => if c =? ch " " then ch "+" else c) s.

(** [GET /?a=&b&&c=d=e]: a blank value, a bare name, an empty argument and
    a value that holds [=]. *)
Definition get_blanks : Request.t := http_request "GET" "/" "a=&b&&c=d=e" [] [].

(** [GET /?q=a+b&r=C%2B]: a space written [+] and a plus written [%2B]. *)
Definition get_plus : Request.t := http_request "GET" "/" "q=a+b&r=C%2B" [] [].

(** * Properties *)

(** ** base64 *)

Section Base64.

Lemma below_spec (P : N -> bool) (k : nat) :
  forallb P (below k) = true -> forall n, n < N.of_nat k -> P n = true.
Proof.
  intros Hall n Hn. rewrite forallb_forall in Hall. apply Hall.
  apply in_map_iff. exists (N.to_nat n). split; [lia|]. apply in_seq. lia.
Qed.

Lemma b64_index_char n : n < 64 -> b64_index (b64_char n) = Some n.
Proof.
  intros Hn.
  pose proof (below_spec
    (fun k => match b64_index (b64_char k) with
              | Some j => j =? k
              | None => false
              end) 64 ltac:(vm_compute; reflexivity) n Hn) as H.
  cbv beta in H. destruct (b64_index (b64_char n)) as [j|]; [|discriminate].
  f_equal. now apply N.eqb_eq.
Qed.

Lemma b64_char_not_pad n : n < 64 -> Byte.eqb (b64_char n) BASE64_PAD = false.
Proof.
  intros Hn.
  apply (below_spec (fun k => negb (Byte.eqb (b64_char k) BASE64_PAD)) 64
           ltac:(vm_compute; reflexivity)) in Hn.
  now apply negb_true_iff in Hn.
Qed.

Lemma sextet1_lt x : x < 256 -> sextet1 x < 64.
Proof.
  intros Hx.
  apply (below_spec (fun x => sextet1 x <? 64) 256 ltac:(vm_compute; reflexivity)) in Hx.
  now apply N.ltb_lt.
Qed.

Lemma sextet2_lt x y : x < 256 -> y < 256 -> sextet2 x y < 64.
Proof.
  intros Hx Hy.
  pose proof (below_spec
    (fun x => forallb (fun y => sextet2 x y <? 64) (below 256)) 256
    ltac:(vm_compute; reflexivity) x Hx) as H.
  cbv beta in H. apply (below_spec _ 256 H) in Hy. now apply N.ltb_lt.
Qed.

Lemma sextet3_lt y z : y < 256 -> z < 256 -> sextet3 y z < 64.
Proof.
  intros Hy Hz.
  pose proof (below_spec
    (fun y => forallb (fun z => sextet3 y z <? 64) (below 256)) 256
    ltac:(vm_compute; reflexivity) y Hy) as H.
  cbv beta in H. apply (below_spec _ 256 H) in Hz. now apply N.ltb_lt.
Qed.

Lemma sextet4_lt z : sextet4 z < 64.
Proof.
  unfold sextet4. change 63 with (N.ones 6). rewrite N.land_ones.
  apply N.mod_lt. discriminate.
Qed.

(** Regrouping the six-bit values gives the octets back. *)
Lemma regroup1 x y :
  x < 256 -> y < 256 ->
  N.lor (N.shiftl (sextet1 x) 2) (N.shiftr (sextet2 x y) 4) = x.
Proof.
  intros Hx Hy.
  pose proof (below_spec
    (fun x => forallb
       (fun y => N.lor (N.shiftl (sextet1 x) 2) (N.shiftr (sextet2 x y) 4) =? x)
       (below 256)) 256
    ltac:(vm_compute; reflexivity) x Hx) as H.
  cbv beta in H. apply (below_spec _ 256 H) in Hy. now apply N.eqb_eq.
Qed.

Lemma regroup2 x y z :
  x < 256 -> y < 256 -> z < 256 ->
  N.lor (N.shiftl (N.land (sextet2 x y) 15) 4) (N.shiftr (sextet3 y z) 2) = y.
Proof.
  intros Hx Hy Hz.
  (* the low four bits of the second group do not depend on [x] *)
  assert (Hlow : N.land (sextet2 x y) 15 = N.shiftr y 4).
  { pose proof (below_spec
      (fun x => forallb
         (fun y => N.land (sextet2 x y) 15 =? N.shiftr y 4) (below 256)) 256
      ltac:(vm_compute; reflexivity) x Hx) as H.
    cbv beta in H. apply (below_spec _ 256 H) in Hy. now apply N.eqb_eq. }
  rewrite Hlow.
  pose proof (below_spec
    (fun y => forallb
       (fun z => N.lor (N.shiftl (N.shiftr y 4) 4) (N.shiftr (sextet3 y z) 2) =? y)
       (below 256)) 256
    ltac:(vm_compute; reflexivity) y Hy) as H.
  cbv beta in H. apply (below_spec _ 256 H) in Hz. now apply N.eqb_eq.
Qed.

Lemma regroup3 y z :
  y < 256 -> z < 256 ->
  N.lor (N.shiftl (N.land (sextet3 y z) 3) 6) (sextet4 z) = z.
Proof.
  intros Hy Hz.
  pose proof (below_spec
    (fun y => forallb
       (fun z => N.lor (N.shiftl (N.land (sextet3 y z) 3) 6) (sextet4 z) =? z)
       (below 256)) 256
    ltac:(vm_compute; reflexivity) y Hy) as H.
  cbv beta in H. apply (below_spec _ 256 H) in Hz. now apply N.eqb_eq.
Qed.

Lemma bytes_ind3 (P : bytes -> Prop) :
  P [] -> (forall a, P [a]) -> (forall a b, P [a; b]) ->
  (forall a b c l, P l -> P (a :: b :: c :: l)) ->
  forall l, P l.
Proof.
  intros H0 H1 H2 H3 l.
  enough (P l /\ (forall a, P (a :: l)) /\ (forall a b, P (a :: b :: l))) by tauto.
  induction l as [|x l (IH0 & IH1 & IH2)]; auto.
Qed.

Ltac sextet_bound :=
  first [apply sextet1_lt | apply sextet2_lt | apply sextet3_lt | apply sextet4_lt];
  first [assumption | lia].

Lemma byte_lt (a : byte) : Byte.to_N a < 256.
Proof. pose proof (Byte.to_N_bounded a). lia. Qed.

Lemma b64decode_b64encode (s : bytes) : b64decode (b64encode s) = Some s.
Proof.
  induction s as [|a|a b|a b c l IH] using bytes_ind3.
  - reflexivity.
  - pose proof (byte_lt a) as Ha.
    cbn [b64encode b64decode].
    rewrite !b64_index_char by sextet_bound.
    cbn [mbind option_bind]. unfold octet1. rewrite regroup1 by (assumption || lia).
    rewrite Byte.of_to_N. reflexivity.
  - pose proof (byte_lt a) as Ha. pose proof (byte_lt b) as Hb.
    cbn [b64encode b64decode].
    rewrite !b64_index_char by sextet_bound.
    cbn [mbind option_bind]. unfold octet1. rewrite regroup1 by assumption.
    rewrite Byte.of_to_N. cbn [mbind option_bind].
    change (Byte.eqb BASE64_PAD BASE64_PAD) with true. cbv iota.
    rewrite b64_char_not_pad by sextet_bound.
    cbn [mbind option_bind]. unfold octet2.
    rewrite regroup2 by (assumption || lia). rewrite Byte.of_to_N. reflexivity.
  - pose proof (byte_lt a) as Ha. pose proof (byte_lt b) as Hb.
    pose proof (byte_lt c) as Hc.
    cbn [b64encode b64decode].
    rewrite !b64_index_char by sextet_bound.
    cbn [mbind option_bind]. unfold octet1, octet2, octet3.
    rewrite regroup1, regroup2, regroup3 by assumption.
    rewrite !Byte.of_to_N. cbn [mbind option_bind].
    rewrite b64_char_not_pad by sextet_bound.
    rewrite IH. reflexivity.
Qed.

End Base64.

(** ** Text decoding *)

(** Every step of the UTF-8 decoder consumes input, so that the number of
    bytes is fuel enough: more fuel changes nothing. *)
Lemma utf8_next_rest (c0 : byte) (t1 : bytes) :
  match utf8_next c0 t1 with
  | Decoded _ rest | Invalid rest => (length rest <= length t1)%nat
  | Truncated => True
  end.
Proof.
  unfold utf8_next.
  repeat match goal with
         | |- context [if ?c then _ else _] => destruct c
         | |- context [match ?l with [] => _ | _ :: _ => _ end] =>
             is_var l; destruct l
         end; cbn [length]; auto; lia.
Qed.

Lemma utf8_surrogate_rest (b : bytes) (u : N) (rest : bytes) :
  utf8_surrogate b = Some (u, rest) -> (length rest < length b)%nat.
Proof.
  unfold utf8_surrogate. destruct b as [|c0 [|c1 [|c2 t]]]; try discriminate.
  destruct (_ && _ && _); [|discriminate].
  destruct (_ && _); [|discriminate]. intros [= _ <-]. cbn [length]. lia.
Qed.

Lemma utf8_decode_fuel_enough (n m : nat) (h : errors) (b : bytes) :
  (length b <= n)%nat -> (length b <= m)%nat ->
  utf8_decode_fuel n h b = utf8_decode_fuel m h b.
Proof.
  revert m b. induction n as [|n IH]; intros m [|c0 t1] Hn Hm;
    try (destruct m; reflexivity); cbn [length] in *; try lia.
  destruct m as [|m]; [lia|]. cbn [utf8_decode_fuel].
  pose proof (utf8_next_rest c0 t1) as Hrest.
  destruct (utf8_next c0 t1) as [cp rest|rest|]; [| |reflexivity].
  - rewrite (IH m rest) by lia. reflexivity.
  - destruct h; [reflexivity| |].
    + rewrite (IH m rest) by lia. reflexivity.
    + destruct (utf8_surrogate (c0 :: t1)) as [[u rest']|] eqn:Hs; [|reflexivity].
      apply utf8_surrogate_rest in Hs. cbn [length] in Hs.
      rewrite (IH m rest') by lia. reflexivity.
Qed.

(** With [errors="replace"] the UTF-8 decoder returns on every input. *)
Lemma utf8_decode_fuel_replace_returns (n : nat) (b : bytes) :
  returns (utf8_decode_fuel n Replace b).
Proof.
  revert b. induction n as [|n IH]; intros [|c0 t1]; cbn [utf8_decode_fuel];
    try (eexists; reflexivity).
  destruct (utf8_next c0 t1) as [cp rest|rest|].
  - destruct (IH rest) as [s Hs]. rewrite Hs. eexists; reflexivity.
  - destruct (IH rest) as [s Hs]. rewrite Hs. eexists; reflexivity.
  - eexists; reflexivity.
Qed.

Lemma utf8_decode_replace_returns (b : bytes) : returns (utf8_decode Replace b).
Proof. apply utf8_decode_fuel_replace_returns. Qed.

(** ** JSON decoding *)

(** The scanner consumes input at every step: the fuel of [scanstring] and
    the bound on the calls of [scan_once] are never what ends a scan. *)
Section Json.

Lemma skip_ws_length (s : str) : (length (skip_ws s) <= length s)%nat.
Proof.
  induction s as [|c s IH]; cbn [skip_ws length]; [lia|].
  destruct (is_ws c); cbn [length]; lia.
Qed.

Lemma decode_uXXXX_rest (s : str) (u : N) (rest : str) :
  decode_uXXXX s = Ok (u, rest) -> (length rest + 4 = length s)%nat.
Proof.
  unfold decode_uXXXX. destruct s as [|h1 [|h2 [|h3 [|h4 t]]]]; try discriminate.
  destruct (hex_value h1), (hex_value h2), (hex_value h3), (hex_value h4);
    try discriminate.
  intros [= _ <-]. cbn [length]. lia.
Qed.

Ltac bind_ok H :=
  match type of H with
  | (mbind _ ?r) = Ok _ =>
      let x := fresh "x" in let E := fresh "E" in
      destruct r as [x|] eqn:E; [cbn [mbind result_bind] in H | discriminate H]
  end.

Lemma scanstring_fuel_rest (n : nat) (s : str) (text rest : str) :
  scanstring_fuel n s = Ok (text, rest) -> (length rest < length s)%nat.
Proof.
  revert s text rest. induction n as [|n IH]; intros s text rest; [discriminate|].
  destruct s as [|c s]; [discriminate|]. cbn [scanstring_fuel length].
  destruct (c =? QUOTE); [intros [= _ <-]; lia|].
  destruct (c =? ch "\").
  - destruct s as [|esc rest1]; [discriminate|].
    destruct (esc =? ch "u").
    + intros H. bind_ok H. destruct x as [uni rest2].
      apply decode_uXXXX_rest in E. cbn [length].
      assert (Hplain : forall t r, scanstring_fuel n rest2 = Ok (t, r) ->
                                   (length r < S (S (length rest1)))%nat).
      { intros t r Hr. apply IH in Hr. lia. }
      destruct rest2 as [|b [|u rest3]].
      * bind_ok H. destruct x as [t a]. injection H as _ <-. eapply Hplain; eauto.
      * bind_ok H. destruct x as [t a]. injection H as _ <-. eapply Hplain; eauto.
      * destruct (_ && _ && _).
        -- bind_ok H. destruct x as [uni2 rest4]. apply decode_uXXXX_rest in E0.
           destruct (is_low_surrogate uni2).
           ++ bind_ok H. destruct x as [t a]. injection H as _ <-.
              apply IH in E1. cbn [length] in *. lia.
           ++ bind_ok H. destruct x as [t a]. injection H as _ <-. eapply Hplain; eauto.
        -- bind_ok H. destruct x as [t a]. injection H as _ <-. eapply Hplain; eauto.
    + destruct (backslash esc); [|discriminate]. intros H.
      bind_ok H. destruct x as [t a]. injection H as _ <-.
      apply IH in E. cbn [length]. lia.
  - destruct (c <? 32); [discriminate|]. intros H.
    bind_ok H. destruct x as [t a]. injection H as _ <-. apply IH in E. lia.
Qed.

Lemma scanstring_rest (s text rest : str) :
  scanstring s = Ok (text, rest) -> (length rest < length s)%nat.
Proof. apply scanstring_fuel_rest. Qed.

Lemma span_digits_length (s d r : str) :
  span_digits s = (d, r) -> (length d + length r = length s)%nat.
Proof.
  revert d r. induction s as [|c s IH]; intros d r; cbn [span_digits].
  - intros [= <- <-]. reflexivity.
  - destruct (is_digit c).
    + destruct (span_digits s) as [d' r'] eqn:E. intros [= <- <-].
      specialize (IH _ _ eq_refl). cbn [length]. lia.
    + intros [= <- <-]. reflexivity.
Qed.

Lemma after_prefix_rest (word s r : str) :
  after_prefix word s = Some r -> (length r + length word = length s)%nat.
Proof.
  revert s. induction word as [|w word IH]; intros s; cbn [after_prefix].
  - intros [= <-]. cbn [length]. lia.
  - destruct s as [|c s]; [discriminate|]. destruct (w =? c); [|discriminate].
    intros H. apply IH in H. cbn [length]. lia.
Qed.

Lemma match_number_rest (s i f e r : str) :
  match_number s = Some (i, f, e, r) -> (length r < length s)%nat.
Proof.
  unfold match_number.
  set (signed := match s with
                 | c :: r0 => if c =? ch "-" then ([c], r0) else ([], s)
                 | [] => ([], s)
                 end).
  assert (Hsigned : (length (snd signed) <= length s)%nat).
  { subst signed. destruct s as [|c r0]; [reflexivity|].
    destruct (c =? ch "-"); cbn [snd length]; lia. }
  destruct signed as [sign s1]. cbn [snd] in Hsigned.
  destruct s1 as [|c r1]; [discriminate|].
  destruct (is_digit c) eqn:Hc; [|discriminate].
  set (int_part := if c =? ch "0" then ([c], r1) else span_digits (c :: r1)).
  assert (Hint : (length (snd int_part) <= length r1)%nat).
  { subst int_part. destruct (c =? ch "0"); [reflexivity|].
    cbn [span_digits]. rewrite Hc.
    destruct (span_digits r1) as [d r'] eqn:E. apply span_digits_length in E.
    cbn [snd]. lia. }
  destruct int_part as [int_digits s2]. cbn [snd] in Hint.
  set (frac_part := match s2 with
                    | dot :: r2 =>
                        if dot =? ch "." then
                          match span_digits r2 with
                          | ([], _) => ([], s2)
                          | (d, r3) => (dot :: d, r3)
                          end
                        else ([], s2)
                    | [] => ([], s2)
                    end).
  assert (Hfrac : (length (snd frac_part) <= length s2)%nat).
  { subst frac_part. destruct s2 as [|dot r2]; [reflexivity|].
    destruct (dot =? ch "."); [|reflexivity].
    destruct (span_digits r2) as [d r3] eqn:E. apply span_digits_length in E.
    destruct d; cbn [snd length] in *; lia. }
  destruct frac_part as [frac s3]. cbn [snd] in Hfrac.
  match goal with
  | |- context [let '(exp, s4) := ?x in _] => set (exp_part := x)
  end.
  assert (Hexp : (length (snd exp_part) <= length s3)%nat).
  { subst exp_part. destruct s3 as [|x r3]; [reflexivity|].
    destruct (_ || _); [|reflexivity].
    match goal with
    | |- context [let '(esign, r4) := ?y in _] => set (sign_part := y)
    end.
    assert (Hs : (length (snd sign_part) <= length r3)%nat).
    { subst sign_part. destruct r3 as [|g r4]; [reflexivity|].
      destruct (_ || _); cbn [snd length]; lia. }
    destruct sign_part as [esign r4]. cbn [snd] in Hs.
    destruct (span_digits r4) as [d r5] eqn:E. apply span_digits_length in E.
    destruct d; cbn [snd length] in *; lia. }
  destruct exp_part as [exp s4]. cbn [snd] in Hexp.
  intros [= _ _ _ <-]. cbn [length] in *. lia.
Qed.

Tactic Notation "bind_pair" hyp(H) ident(x) ident(y) :=
  match type of H with
  | (mbind _ ?r) = Ok _ =>
      let E := fresh "E" in
      destruct r as [[x y]|] eqn:E; [cbn [mbind result_bind] in H | discriminate H]
  end.

Lemma scan_shrinks (steps : nat) :
  (forall depth s v r,
     scan_once steps depth s = Ok (v, r) -> (length r < length s)%nat)
  /\ (forall depth s vs r,
        array_values steps depth s = Ok (vs, r) -> (length r < length s)%nat)
  /\ (forall depth s ps r,
        object_pairs steps depth s = Ok (ps, r) -> (length r < length s)%nat).
Proof.
  induction steps as [|steps (IHscan & IHarray & IHobject)];
    [repeat split; intros; discriminate|].
  repeat split.
  - intros depth s v r. destruct s as [|c rest]; [discriminate|].
    cbn [scan_once length].
    destruct (c =? QUOTE).
    { intros H. bind_pair H text after. injection H as _ <-.
      apply scanstring_rest in E. lia. }
    destruct (c =? ch "{").
    { destruct depth as [|depth]; [discriminate|].
      pose proof (skip_ws_length rest) as Hws.
      destruct (skip_ws rest) as [|c1 rest1]; [discriminate|]. cbn [length] in Hws.
      destruct (c1 =? ch "}"); [intros [= _ <-]; lia|].
      destruct (c1 =? QUOTE); [|discriminate].
      intros H. bind_pair H pairs after. injection H as _ <-.
      apply IHobject in E. lia. }
    destruct (c =? ch "[").
    { destruct depth as [|depth]; [discriminate|].
      pose proof (skip_ws_length rest) as Hws.
      destruct (skip_ws rest) as [|c1 rest1] eqn:Hs1; [discriminate|].
      cbn [length] in Hws.
      destruct (c1 =? ch "]"); [intros [= _ <-]; lia|].
      intros H. bind_pair H values after. injection H as _ <-.
      apply IHarray in E. cbn [length] in E. lia. }
    change (S (length rest)) with (length (c :: rest)).
    generalize (c :: rest) as s. clear c rest. intros s.
    destruct (after_prefix (lit "null") s) as [a|] eqn:E1.
    { intros [= _ <-]. apply after_prefix_rest in E1. cbn [length lit map list_ascii_of_string] in E1. lia. }
    destruct (after_prefix (lit "true") s) as [a|] eqn:E2.
    { intros [= _ <-]. apply after_prefix_rest in E2. cbn [length lit map list_ascii_of_string] in E2. lia. }
    destruct (after_prefix (lit "false") s) as [a|] eqn:E3.
    { intros [= _ <-]. apply after_prefix_rest in E3. cbn [length lit map list_ascii_of_string] in E3. lia. }
    destruct (match_number s) as [[[[i f] e] a]|] eqn:E4.
    { apply match_number_rest in E4.
      destruct f, e; try (intros [= _ <-]; assumption).
      destruct (_ <? _)%nat; [discriminate|]. intros [= _ <-]. assumption. }
    destruct (after_prefix (lit "NaN") s) as [a|] eqn:E5.
    { intros [= _ <-]. apply after_prefix_rest in E5. cbn [length lit map list_ascii_of_string] in E5. lia. }
    destruct (after_prefix (lit "Infinity") s) as [a|] eqn:E6.
    { intros [= _ <-]. apply after_prefix_rest in E6. cbn [length lit map list_ascii_of_string] in E6. lia. }
    destruct (after_prefix (lit "-Infinity") s) as [a|] eqn:E7.
    { intros [= _ <-]. apply after_prefix_rest in E7. cbn [length lit map list_ascii_of_string] in E7. lia. }
    discriminate.
  - intros depth s vs r. cbn [array_values]. intros H.
    bind_pair H value after. apply IHscan in E.
    pose proof (skip_ws_length after) as Hws.
    destruct (skip_ws after) as [|c rest]; [discriminate|]. cbn [length] in Hws.
    destruct (c =? ch "]"); [injection H as _ <-; lia|].
    destruct (c =? ch ","); [|discriminate].
    bind_pair H values after'. injection H as _ <-.
    apply IHarray in E0. pose proof (skip_ws_length rest). lia.
  - intros depth s ps r. cbn [object_pairs]. intros H.
    bind_pair H key after_key. apply scanstring_rest in E.
    pose proof (skip_ws_length after_key) as Hws.
    destruct (skip_ws after_key) as [|colon rest]; [discriminate|].
    cbn [length] in Hws.
    destruct (colon =? ch ":"); [|discriminate].
    bind_pair H value after. apply IHscan in E0.
    pose proof (skip_ws_length rest) as Hws1.
    pose proof (skip_ws_length after) as Hws2.
    destruct (skip_ws after) as [|c rest']; [discriminate|]. cbn [length] in Hws2.
    destruct (c =? ch "}"); [injection H as _ <-; lia|].
    destruct (c =? ch ","); [|discriminate].
    pose proof (skip_ws_length rest') as Hws3.
    destruct (skip_ws rest') as [|q rest'']; [discriminate|]. cbn [length] in Hws3.
    destruct (q =? QUOTE); [|discriminate].
    bind_pair H pairs after'. injection H as _ <-.
    apply IHobject in E1. lia.
Qed.

Lemma decode_uXXXX_raises (s : str) (e : exn) :
  decode_uXXXX s = Raise e -> e = JSONDecodeError.
Proof.
  unfold decode_uXXXX. destruct s as [|h1 [|h2 [|h3 [|h4 t]]]]; try congruence.
  destruct (hex_value h1), (hex_value h2), (hex_value h3), (hex_value h4);
    congruence.
Qed.

Tactic Notation "bind_raise" hyp(H) ident(x) ident(y) :=
  match type of H with
  | (mbind _ ?r) = Raise _ =>
      let E := fresh "E" in
      destruct r as [[x y]|] eqn:E; cbn [mbind result_bind] in H
  end.

Lemma scanstring_fuel_raises (n : nat) (s : str) (e : exn) :
  scanstring_fuel n s = Raise e -> e = JSONDecodeError.
Proof.
  revert s. induction n as [|n IH]; intros s; [cbn; congruence|].
  destruct s as [|c s]; [cbn; congruence|]. cbn [scanstring_fuel].
  repeat match goal with
         | |- context [if ?c then _ else _] => destruct c
         | |- context [match ?l with [] => _ | _ :: _ => _ end] => is_var l; destruct l
         | |- context [match backslash ?x with _ => _ end] => destruct (backslash x)
         | |- Ok _ = Raise _ -> _ => discriminate
         | |- Raise _ = Raise _ -> _ => congruence
         | |- mbind _ _ = Raise _ -> _ =>
             let H := fresh "H" in let x := fresh "x" in let y := fresh "y" in
             intros H; bind_raise H x y; revert H
         | E : scanstring_fuel n _ = Raise _ |- Raise _ = Raise _ -> _ =>
             intros [= <-]; exact (IH _ E)
         | E : decode_uXXXX _ = Raise _ |- Raise _ = Raise _ -> _ =>
             intros [= <-]; exact (decode_uXXXX_raises _ _ E)
         end.
Qed.

Lemma scanstring_raises (s : str) (e : exn) :
  scanstring s = Raise e -> e = JSONDecodeError.
Proof. apply scanstring_fuel_raises. Qed.

(** The bound on the number of calls is never what stops the scanner. *)
Lemma scan_steps_enough (steps : nat) :
  (forall depth s, (2 * length s < steps)%nat ->
     scan_once steps depth s <> Raise MemoryError)
  /\ (forall depth s, (2 * length s + 1 < steps)%nat ->
        array_values steps depth s <> Raise MemoryError)
  /\ (forall depth s, (2 * length s < steps)%nat ->
        object_pairs steps depth s <> Raise MemoryError).
Proof.
  induction steps as [|steps (IHscan & IHarray & IHobject)];
    [repeat split; intros; lia|].
  destruct (scan_shrinks steps) as (Sscan & Sarray & Sobject).
  repeat split.
  - intros depth s Hlen. destruct s as [|c rest]; [discriminate|].
    cbn [scan_once]. cbn [length] in Hlen.
    destruct (c =? QUOTE).
    { intros H. bind_raise H text after; [discriminate|].
      injection H as ->. now apply scanstring_raises in E. }
    destruct (c =? ch "{").
    { destruct depth as [|depth]; [discriminate|].
      pose proof (skip_ws_length rest) as Hws.
      destruct (skip_ws rest) as [|c1 rest1]; [discriminate|]. cbn [length] in Hws.
      destruct (c1 =? ch "}"); [discriminate|].
      destruct (c1 =? QUOTE); [|discriminate].
      intros H. bind_raise H pairs after; [discriminate|].
      injection H as ->. revert E. apply IHobject. lia. }
    destruct (c =? ch "[").
    { destruct depth as [|depth]; [discriminate|].
      pose proof (skip_ws_length rest) as Hws.
      destruct (skip_ws rest) as [|c1 rest1] eqn:Hs1; [discriminate|].
      destruct (c1 =? ch "]"); [discriminate|].
      intros H. bind_raise H values after; [discriminate|].
      injection H as ->. revert E. apply IHarray. lia. }
    repeat match goal with
           | |- context [match after_prefix ?w ?s with _ => _ end] =>
               destruct (after_prefix w s)
           | |- context [match match_number ?s with _ => _ end] =>
               destruct (match_number s) as [[[[? f] e] ?]|]; [destruct f, e|]
           | |- context [if ?c then _ else _] => destruct c
           end; discriminate.
  - intros depth s Hlen. cbn [array_values]. intros H.
    bind_raise H value after.
    + apply Sscan in E.
      pose proof (skip_ws_length after) as Hws.
      destruct (skip_ws after) as [|c rest]; [discriminate|]. cbn [length] in Hws.
      destruct (c =? ch "]"); [discriminate|].
      destruct (c =? ch ","); [|discriminate].
      bind_raise H values after'; [discriminate|].
      injection H as ->. revert E0. apply IHarray.
      pose proof (skip_ws_length rest). lia.
    + injection H as ->. revert E. apply IHscan. lia.
  - intros depth s Hlen. cbn [object_pairs]. intros H.
    bind_raise H key after_key;
      [|injection H as ->; now apply scanstring_raises in E].
    apply scanstring_rest in E.
    pose proof (skip_ws_length after_key) as Hws.
    destruct (skip_ws after_key) as [|colon rest]; [discriminate|].
    cbn [length] in Hws.
    destruct (colon =? ch ":"); [|discriminate].
    pose proof (skip_ws_length rest) as Hws1.
    bind_raise H value after;
      [|injection H as ->; revert E0; apply IHscan; lia].
    apply Sscan in E0.
    pose proof (skip_ws_length after) as Hws2.
    destruct (skip_ws after) as [|c rest']; [discriminate|]. cbn [length] in Hws2.
    destruct (c =? ch "}"); [discriminate|].
    destruct (c =? ch ","); [|discriminate].
    pose proof (skip_ws_length rest') as Hws3.
    destruct (skip_ws rest') as [|q rest'']; [discriminate|]. cbn [length] in Hws3.
    destruct (q =? QUOTE); [|discriminate].
    bind_raise H pairs after'; [discriminate|].
    injection H as ->. revert E1. apply IHobject. lia.
Qed.

Lemma json_decode_steps_enough (depth : nat) (s : str) :
  json_decode depth s <> Raise MemoryError.
Proof.
  unfold json_decode. intros H. bind_raise H obj after.
  - destruct (skip_ws after); discriminate.
  - injection H as ->. revert E.
    apply (proj1 (scan_steps_enough _)). pose proof (skip_ws_length s). lia.
Qed.

Lemma scanstring_fuel_enough (n m : nat) (s : str) :
  (length s <= n)%nat -> (length s <= m)%nat ->
  scanstring_fuel n s = scanstring_fuel m s.
Proof.
  revert m s. induction n as [|n IH]; intros m s Hn Hm.
  - destruct s; [|cbn [length] in Hn; lia]. destruct m; reflexivity.
  - destruct m as [|m].
    { destruct s; [reflexivity|cbn [length] in Hm; lia]. }
    destruct s as [|c s]; [reflexivity|]. cbn [length] in Hn, Hm.
    cbn [scanstring_fuel].
    destruct (c =? QUOTE); [reflexivity|].
    destruct (c =? ch "\").
    + destruct s as [|esc rest1]; [reflexivity|]. cbn [length] in Hn, Hm.
      destruct (esc =? ch "u").
      * destruct (decode_uXXXX rest1) as [[uni rest2]|] eqn:E; [|reflexivity].
        apply decode_uXXXX_rest in E. cbn [mbind result_bind].
        assert (Hplain : scanstring_fuel n rest2 = scanstring_fuel m rest2)
          by (apply IH; lia).
        destruct rest2 as [|b [|u rest3]]; try (now rewrite Hplain).
        destruct (_ && _ && _); [|now rewrite Hplain].
        destruct (decode_uXXXX rest3) as [[uni2 rest4]|] eqn:E2; [|reflexivity].
        apply decode_uXXXX_rest in E2. cbn [mbind result_bind].
        destruct (is_low_surrogate uni2); [|now rewrite Hplain].
        rewrite (IH m rest4) by (cbn [length] in *; lia). reflexivity.
      * destruct (backslash esc); [|reflexivity].
        rewrite (IH m rest1) by lia. reflexivity.
    + destruct (c <? 32); [reflexivity|].
      rewrite (IH m s) by lia. reflexivity.
Qed.

End Json.

(** ** The handler, field by field *)

Section Handler.

Context `{rt : Runtime}.

(** The base64 step cannot raise: the alphabet is ASCII. *)
Lemma b64_char_ascii n : Byte.to_N (b64_char n) < 0x80.
Proof.
  destruct (N.lt_ge_cases n 64) as [Hn|Hn].
  - apply (below_spec (fun k => Byte.to_N (b64_char k) <? 0x80) 64
             ltac:(vm_compute; reflexivity)) in Hn.
    now apply N.ltb_lt.
  - unfold b64_char. rewrite nth_overflow; [reflexivity|].
    change (length b64_alphabet) with 64%nat. lia.
Qed.

Lemma ascii_decode_strict_ok (b : bytes) :
  Forall (fun c => Byte.to_N c < 0x80) b ->
  ascii_decode_strict b = Ok (latin1_decode b).
Proof.
  unfold ascii_decode_strict. induction 1 as [|c b Hc Hb IH]; [reflexivity|].
  cbn [ascii_decode]. apply N.ltb_lt in Hc. rewrite Hc, IH. reflexivity.
Qed.

Lemma b64encode_ascii (s : bytes) :
  Forall (fun c => Byte.to_N c < 0x80) (b64encode s).
Proof.
  induction s as [|a|a b|a b c l IH] using bytes_ind3; cbn [b64encode];
    repeat constructor; auto using b64_char_ascii.
Qed.

Lemma ascii_encode_latin1 (b : bytes) :
  Forall (fun c => Byte.to_N c < 0x80) b ->
  ascii_encode (latin1_decode b) = Some b.
Proof.
  induction 1 as [|c b Hc Hb IH]; [reflexivity|].
  cbn [latin1_decode map ascii_encode]. apply N.ltb_lt in Hc. rewrite Hc.
  rewrite Byte.of_to_N. cbn [mbind option_bind].
  unfold latin1_decode in IH. rewrite IH. reflexivity.
Qed.

Lemma body_base64_nonempty (request : Request.t) :
  Request.body request <> [] ->
  body_base64 request = Ok (Some (latin1_decode (b64encode (Request.body request)))).
Proof.
  intros Hne. unfold body_base64.
  destruct (Request.body request) as [|c b] eqn:Hb; [congruence|].
  cbn [nonempty]. rewrite ascii_decode_strict_ok by apply b64encode_ascii.
  reflexivity.
Qed.


(** What a returned dictionary holds. *)
Lemma echo_fields (request : Request.t) (d : Response.t) :
  echo request = Ok d ->
  body_text request = Ok (Response.body_text d)
  /\ json_payload request = Ok (Response.json d)
  /\ body_base64 request = Ok (Response.body_base64 d)
  /\ Response.body_length d = Z.of_nat (length (Request.body request))
  /\ Response.headers d = _headers_to_list (request_headers request)
  /\ Response.query_params d = query_params_multi_items request
  /\ Response.scope d = _normalize_scope (request_scope request).
Proof.
  unfold echo.
  destruct (body_text request) as [t|e]; [|discriminate].
  destruct (json_payload request) as [j|e]; [|discriminate].
  destruct (body_base64 request) as [b|e]; [|discriminate].
  cbn [mbind result_bind].
  destruct (Request.client request) as [[? ?]|];
    destruct (Request.server request) as [[? [?|]]|];
    intros [= <-]; cbn; auto 10.
Qed.


(** Without a [Content-Type] header the text is the UTF-8 decoding, with
    replacement. *)
Lemma bytes_decode_utf8 (b : bytes) :
  bytes_decode (lit "utf-8") b = utf8_decode Replace b.
Proof. reflexivity. Qed.

Lemma body_text_without_content_type (request : Request.t) :
  find (fun h => bytes_eqb (fst h) (blit "content-type")) (Request.headers request)
  = None ->
  Request.body request <> [] ->
  exists text, utf8_decode Replace (Request.body request) = Ok text
               /\ body_text request = Ok (Some text).
Proof.
  intros Hnone Hne.
  destruct (utf8_decode_replace_returns (Request.body request)) as [text Htext].
  exists text. split; [exact Htext|].
  unfold body_text, headers_get. rewrite Hnone.
  destruct (Request.body request) as [|c b]; [congruence|].
  cbn [nonempty]. rewrite bytes_decode_utf8, Htext. reflexivity.
Qed.

(** When the registry knows no codec of the name, the text is again the
    UTF-8 decoding, with replacement. *)
Lemma body_text_unknown_codec (request : Request.t) (e : exn) :
  Request.body request <> [] ->
  bytes_decode (headers_get "content-type" "utf-8" request) (Request.body request)
  = Raise e ->
  is_LookupError e = true ->
  exists text, utf8_decode Replace (Request.body request) = Ok text
               /\ body_text request = Ok (Some text).
Proof.
  intros Hne Hraise Hlookup.
  destruct (utf8_decode_replace_returns (Request.body request)) as [text Htext].
  exists text. split; [exact Htext|].
  unfold body_text. destruct (Request.body request) as [|c b]; [congruence|].
  cbn [nonempty]. rewrite Hraise. cbn [try_except]. rewrite Hlookup.
  rewrite bytes_decode_utf8, Htext. reflexivity.
Qed.


End Handler.



(** C6. For every request with a non-empty body, of any octets, the base64
    step gives a text, that text is the [body.base64] of the dictionary the
    handler returns, and decoding it as standard base64 gives the octets of
    the body back. *)
Theorem base64_roundtrip `{rt : Runtime} (request : Request.t) :
  Request.body request <> [] ->
  exists text,
    body_base64 request = Ok (Some text)
    /\ (forall d, echo request = Ok d -> Response.body_base64 d = Some text)
    /\ (ascii_encode text ≫= b64decode) = Some (Request.body request).
Proof.
  intros Hne. exists (latin1_decode (b64encode (Request.body request))).
  pose proof (body_base64_nonempty request Hne) as Hstep.
  split; [exact Hstep|]. split.
  - intros d Hd. apply echo_fields in Hd as (_ & _ & Hb & _).
    rewrite Hstep in Hb. now injection Hb.
  - rewrite ascii_encode_latin1 by apply b64encode_ascii.
    cbn [mbind option_bind]. apply b64decode_b64encode.
Qed.

Lemma base64_roundtrip_witness :
  Request.body post_latin1 <> []
  /\ exists d text,
       echo (rt:=cpython) post_latin1 = Ok d
       /\ Response.body_base64 d = Some text
       /\ (ascii_encode text ≫= b64decode) = Some [xe9].
Proof.
  split; [discriminate|].
  destruct (base64_roundtrip (rt:=cpython) post_latin1 ltac:(discriminate))
    as (text & _ & Hfield & Hback).
  assert (Hreturns : returns (echo (rt:=cpython) post_latin1))
    by (eexists; vm_compute; reflexivity).
  destruct Hreturns as [d Hd]. exists d, text.
  split; [exact Hd|]. split; [exact (Hfield d Hd) | exact Hback].
Defined.

(** ** Headers *)

Section Headers.

Lemma headers_to_list_request (request : Request.t) :
  _headers_to_list (request_headers request)
  = map header_entry (Request.headers request).
Proof.
  unfold _headers_to_list, request_headers. cbn [raw]. rewrite map_map.
  reflexivity.
Qed.

Lemma byte_to_N_inj (a b : byte) : Byte.to_N a = Byte.to_N b -> a = b.
Proof.
  intros Hab. pose proof (Byte.of_to_N a) as Ha. rewrite Hab, Byte.of_to_N in Ha.
  congruence.
Qed.

Lemma latin1_decode_inj (a b : bytes) : latin1_decode a = latin1_decode b -> a = b.
Proof.
  revert b. induction a as [|x a IH]; intros [|y b]; cbn; try discriminate; auto.
  intros [= Hxy Hab]. f_equal; auto using byte_to_N_inj.
Qed.

End Headers.

(** C7. When a request carries two headers of one name with different
    values, the list of headers has an entry for each, distinct, in the order
    of receipt, with every other header at its place: nothing is collapsed.
    That list is the [headers] of the dictionary the handler returns. *)
Theorem duplicate_headers_kept `{rt : Runtime} (request : Request.t)
    (before between after : list (bytes * bytes)) (n v1 v2 : bytes) :
  Request.headers request = before ++ (n, v1) :: between ++ (n, v2) :: after ->
  v1 <> v2 ->
  let first := {| name := latin1_decode n; value := latin1_decode v1 |} in
  let second := {| name := latin1_decode n; value := latin1_decode v2 |} in
  exists b m a,
    _headers_to_list (request_headers request) = b ++ first :: m ++ second :: a
    /\ length b = length before
    /\ length m = length between
    /\ length a = length after
    /\ first <> second
    /\ forall d, echo request = Ok d ->
                 Response.headers d = b ++ first :: m ++ second :: a.
Proof.
  intros Hh Hne first second.
  exists (map header_entry before), (map header_entry between),
         (map header_entry after).
  assert (Hlist : _headers_to_list (request_headers request)
                  = map header_entry before
                      ++ first :: map header_entry between
                      ++ second :: map header_entry after).
  { rewrite headers_to_list_request, Hh.
    rewrite map_app. cbn [map]. rewrite map_app. reflexivity. }
  split; [exact Hlist|].
  rewrite !length_map. repeat split.
  - subst first second. intros [= Heq]. now apply latin1_decode_inj in Heq.
  - intros d Hd. apply echo_fields in Hd as (_ & _ & _ & _ & Hd & _).
    now rewrite Hd.
Qed.

Lemma duplicate_headers_kept_witness :
  exists d,
    echo (rt:=cpython) get_duplicates = Ok d
    /\ Response.headers d
       = [ {| name := lit "x-tag"; value := lit "a" |};
           {| name := lit "x-tag"; value := lit "b" |} ].
Proof.
  destruct (duplicate_headers_kept (rt:=cpython) get_duplicates [] [] []
              (blit "x-tag") (blit "a") (blit "b") eq_refl ltac:(discriminate))
    as (b & m & a & _ & Hb & Hm & Ha & _ & Hfield).
  assert (Hreturns : returns (echo (rt:=cpython) get_duplicates))
    by (eexists; vm_compute; reflexivity).
  destruct Hreturns as [d Hd]. exists d. split; [exact Hd|].
  rewrite (Hfield d Hd).
  destruct b; [|discriminate Hb]. destruct m; [|discriminate Hm].
  destruct a; [|discriminate Ha]. reflexivity.
Defined.

(** ** Query parameters *)

Section Query.

Lemma split_on_no_sep (sep : N) (s : str) :
  forallb (fun c => negb (c =? sep)) s = true -> split_on sep s = [s].
Proof.
  induction s as [|c s IH]; [reflexivity|].
  cbn [forallb split_on]. intros [Hc Hs]%andb_true_iff.
  apply negb_true_iff in Hc. rewrite Hc, (IH Hs). reflexivity.
Qed.

Lemma split_on_app (sep : N) (a b : str) :
  forallb (fun c => negb (c =? sep)) a = true ->
  split_on sep (a ++ sep :: b) = a :: split_on sep b.
Proof.
  induction a as [|c a IH].
  - intros _. cbn [Datatypes.app split_on]. rewrite N.eqb_refl. reflexivity.
  - cbn [forallb Datatypes.app split_on]. intros [Hc Ha]%andb_true_iff.
    apply negb_true_iff in Hc. rewrite Hc, (IH Ha). reflexivity.
Qed.

Lemma split_name_value_app (k v : str) :
  forallb (fun c => negb (c =? ch "=")) k = true ->
  split_name_value (k ++ ch "=" :: v) = (k, v).
Proof.
  induction k as [|c k IH].
  - intros _. reflexivity.
  - cbn [forallb Datatypes.app split_name_value]. intros [Hc Hk]%andb_true_iff.
    apply negb_true_iff in Hc. rewrite Hc, (IH Hk). reflexivity.
Qed.

Lemma plain_weaken (sep : N) (s : str) :
  is_plain sep = false ->
  forallb is_plain s = true -> forallb (fun c => negb (c =? sep)) s = true.
Proof.
  intros Hsep Hs. rewrite forallb_forall in *. intros c Hc.
  specialize (Hs c Hc). apply negb_true_iff, N.eqb_neq. intros ->. congruence.
Qed.

Lemma plus_to_space_plain (s : str) :
  forallb is_plain s = true -> plus_to_space s = s.
Proof.
  intros Hs. apply (plain_weaken (ch "+")) in Hs; [|reflexivity].
  unfold plus_to_space. induction s as [|c s IH]; [reflexivity|].
  cbn [forallb] in Hs. apply andb_true_iff in Hs as [Hc Hs].
  apply negb_true_iff in Hc. cbn [map]. rewrite Hc, (IH Hs). reflexivity.
Qed.

Lemma unquote_plain (s : str) : forallb is_plain s = true -> unquote s = s.
Proof.
  intros Hs. apply (plain_weaken (ch "%")) in Hs; [|reflexivity].
  unfold unquote.
  replace (existsb (fun c => c =? ch "%") s) with false; [reflexivity|].
  symmetry. apply not_true_is_false. intros [c [Hin Hc]]%existsb_exists.
  rewrite forallb_forall in Hs. specialize (Hs c Hin). rewrite Hc in Hs.
  discriminate.
Qed.

(** One argument of the query string, as [parse_qsl] reads it. *)
Lemma parse_argument (k v : str) :
  plain_pair (k, v) -> argument_pair (k ++ ch "=" :: v) = (k, v).
Proof.
  intros [Hk Hv]. cbn [fst snd] in Hk, Hv. unfold argument_pair.
  rewrite split_name_value_app by (now apply plain_weaken).
  now rewrite !plus_to_space_plain, !unquote_plain.
Qed.

Lemma argument_no_amp (k v : str) :
  plain_pair (k, v) ->
  forallb (fun c => negb (c =? ch "&")) (k ++ ch "=" :: v) = true.
Proof.
  intros [Hk Hv]. cbn [fst snd] in Hk, Hv.
  rewrite forallb_app. cbn [forallb].
  rewrite !(plain_weaken (ch "&")) by (reflexivity || assumption).
  reflexivity.
Qed.

Lemma split_join_pairs (p : str * str) (pairs : list (str * str)) :
  Forall plain_pair (p :: pairs) ->
  split_on (ch "&") (join_pairs (p :: pairs))
  = map (fun kv => fst kv ++ ch "=" :: snd kv) (p :: pairs).
Proof.
  revert p. induction pairs as [|q pairs IH]; intros [k v] Hall.
  - cbn [join_pairs map fst snd]. rewrite app_nil_r.
    apply split_on_no_sep, argument_no_amp. now inversion Hall.
  - inversion Hall as [|? ? Hp Hrest]; subst.
    change (join_pairs ((k, v) :: q :: pairs))
      with (k ++ ch "=" :: v ++ ch "&" :: join_pairs (q :: pairs)).
    replace (k ++ ch "=" :: v ++ ch "&" :: join_pairs (q :: pairs))
      with ((k ++ ch "=" :: v) ++ ch "&" :: join_pairs (q :: pairs))
      by (now rewrite <- app_assoc).
    rewrite split_on_app by (now apply argument_no_amp).
    rewrite (IH q Hrest). reflexivity.
Qed.

(** [parse_qsl] reads the arguments one after the other: what stands before
    an [&] and what stands after it give their pairs independently. *)
Lemma split_on_not_nil (sep : N) (a : str) : split_on sep a <> [].
Proof.
  destruct a as [|c a]; cbn [split_on]; [discriminate|].
  destruct (c =? sep); [discriminate|]. destruct (split_on sep a); discriminate.
Qed.

Lemma split_on_app_all (sep : N) (a b : str) :
  split_on sep (a ++ sep :: b) = split_on sep a ++ split_on sep b.
Proof.
  induction a as [|c a IH].
  - cbn [Datatypes.app split_on]. now rewrite N.eqb_refl.
  - cbn [Datatypes.app split_on]. destruct (c =? sep).
    + now rewrite IH.
    + rewrite IH. pose proof (split_on_not_nil sep a) as Hne.
      destruct (split_on sep a) as [|first others]; [congruence|reflexivity].
Qed.

Lemma parse_qsl_split (qs : str) :
  parse_qsl qs
  = flat_map (fun name_value =>
                match name_value with
                | [] => []
                | _ => [argument_pair name_value]
                end)
             (split_on (ch "&") qs).
Proof. unfold parse_qsl. destruct qs; reflexivity. Qed.

(** One pair for each argument that is not empty, in their order. *)
Lemma parse_qsl_arguments (qs : str) :
  parse_qsl qs
  = map argument_pair
        (filter (fun name_value => nonempty_text name_value = true)
                (split_on (ch "&") qs)).
Proof.
  rewrite parse_qsl_split.
  induction (split_on (ch "&") qs) as [|[|c a] args IH]; [reflexivity| |].
  - cbn [flat_map Datatypes.app]. rewrite IH. reflexivity.
  - cbn [flat_map Datatypes.app]. rewrite IH. reflexivity.
Qed.

Lemma parse_qsl_app (a b : str) :
  parse_qsl (a ++ ch "&" :: b) = parse_qsl a ++ parse_qsl b.
Proof.
  rewrite !parse_qsl_split, split_on_app_all. apply flat_map_app.
Qed.

Lemma parse_qsl_join_pairs (pairs : list (str * str)) :
  Forall plain_pair pairs -> parse_qsl (join_pairs pairs) = pairs.
Proof.
  intros Hall. destruct pairs as [|p pairs]; [reflexivity|].
  rewrite parse_qsl_split, split_join_pairs by assumption.
  induction Hall as [|[k v] rest Hp Hrest IH]; [reflexivity|].
  cbn [map flat_map fst snd].
  rewrite (parse_argument k v Hp), IH.
  destruct k; reflexivity.
Qed.

End Query.

(** C8.  For every request [query_params] has one pair for each argument of
    the query string that is not empty, in the order of the arguments:
    nothing is merged or reordered, whatever the keys.  When the query
    string spells out pairs [k1=v1&k2=v2&...] (keys and values free of [&],
    [=], [%] and [+]), [query_params] is the list of these pairs, repeated
    keys included, in the order of the query string; it is the
    [query_params] of the dictionary the handler returns.  In particular
    [/?k=1&k=2] gives [("k","1"), ("k","2")]. *)
Theorem query_pairs_kept `{rt : Runtime} (request : Request.t)
    (pairs : list (str * str)) :
  Forall plain_pair pairs ->
  latin1_decode (Request.query_string request) = join_pairs pairs ->
  query_params_multi_items request = pairs
  /\ (forall d, echo request = Ok d -> Response.query_params d = pairs)
  /\ (forall other : Request.t,
        query_params_multi_items other
        = map argument_pair
            (filter (fun name_value => nonempty_text name_value = true)
               (split_on (ch "&") (latin1_decode (Request.query_string other)))))
  /\ query_params_multi_items get_duplicates
     = [(lit "k", lit "1"); (lit "k", lit "2")].
Proof.
  intros Hall Hqs.
  assert (Hparams : query_params_multi_items request = pairs).
  { unfold query_params_multi_items. rewrite Hqs. now apply parse_qsl_join_pairs. }
  split; [exact Hparams|]. split; [|split; [|reflexivity]].
  - intros d Hd. apply echo_fields in Hd as (_ & _ & _ & _ & _ & Hd & _).
    now rewrite Hd.
  - intros other. apply parse_qsl_arguments.
Qed.

Lemma query_pairs_kept_witness :
  exists d,
    echo (rt:=cpython) get_duplicates = Ok d
    /\ Response.query_params d = [(lit "k", lit "1"); (lit "k", lit "2")].
Proof.
  destruct (query_pairs_kept (rt:=cpython) get_duplicates
              [(lit "k", lit "1"); (lit "k", lit "2")]) as (_ & Hfield & _).
  - repeat constructor.
  - reflexivity.
  - assert (Hreturns : returns (echo (rt:=cpython) get_duplicates))
      by (eexists; vm_compute; reflexivity).
    destruct Hreturns as [d Hd]. exists d. split; [exact Hd | exact (Hfield d Hd)].
Defined.

(** ** The scope snapshot *)

Section Scope.

Lemma normalize_entry_lookup (key : str) (value : PyVal)
    (serialisable : gmap str PyVal) (k : str) :
  normalize_entry key value serialisable !! k
  = if decide (key = k)
    then match snapshot_of key value with
         | Some v => Some v
         | None => serialisable !! k
         end
    else serialisable !! k.
Proof.
  unfold normalize_entry, snapshot_of.
  destruct (decide (key = k)) as [->|Hne].
  - destruct (bool_decide (k ∈ skipped_keys)); [reflexivity|].
    destruct (is_scalar value); [apply lookup_insert_eq|].
    destruct value as [ | ? | ? | ? | ? | ? | l | l | ? | ? ]; try reflexivity;
      destruct (forallb is_scalar l); first [apply lookup_insert_eq | reflexivity].
  - destruct (bool_decide (key ∈ skipped_keys)); [reflexivity|].
    destruct (is_scalar value); [now apply lookup_insert_ne|].
    destruct value as [ | ? | ? | ? | ? | ? | l | l | ? | ? ]; try reflexivity;
      destruct (forallb is_scalar l); first [now apply lookup_insert_ne | reflexivity].
Qed.

(** The snapshot, key by key. *)
Lemma normalize_scope_lookup (scope : gmap str PyVal) (k : str) :
  _normalize_scope scope !! k = scope !! k ≫= snapshot_of k.
Proof.
  unfold _normalize_scope. revert k.
  apply (map_fold_weak_ind
           (fun r (m : gmap str PyVal) => forall k, r !! k = m !! k ≫= snapshot_of k)).
  - intros k. now rewrite !lookup_empty.
  - intros i x m r Hfresh IH k. rewrite normalize_entry_lookup.
    destruct (decide (i = k)) as [->|Hne].
    + rewrite lookup_insert_eq. cbn [mbind option_bind].
      destruct (snapshot_of k x); [reflexivity|].
      now rewrite IH, Hfresh.
    + rewrite lookup_insert_ne by assumption. apply IH.
Qed.

End Scope.

(** C9, amended.  The snapshot has an entry under a key exactly when the key
    is none of [headers], [raw_headers], [app], [router], [endpoint],
    [state] and the scope holds under it either a scalar ([str], [int],
    [float], [bool], [None]), kept as it is, or a list or tuple whose items
    are all scalars, of whatever kinds, kept as a list.  Every other entry
    is dropped. *)
Theorem scope_snapshot (scope : gmap str PyVal) (key : str) (v : PyVal) :
  _normalize_scope scope !! key = Some v
  <-> (key ∉ skipped_keys)
      /\ exists value, scope !! key = Some value
           /\ (is_scalar value = true /\ v = value
               \/ exists items, (value = VList items \/ value = VTuple items)
                    /\ forallb is_scalar items = true
                    /\ v = VList items).
Proof.
  rewrite normalize_scope_lookup. unfold snapshot_of. split.
  - destruct (scope !! key) as [value|]; [|discriminate].
    cbn [mbind option_bind]. case_bool_decide as Hkey; [discriminate|].
    intros Hv. split; [assumption|]. exists value. split; [reflexivity|].
    destruct (is_scalar value) eqn:Hs.
    + left. split; congruence.
    + right. destruct value as [ | ? | ? | ? | ? | ? | l | l | ? | ? ]; try discriminate;
        (destruct (forallb is_scalar l) eqn:Hall; [|discriminate]);
        exists l; repeat split; auto; congruence.
  - intros (Hkey & value & -> & Hcases). cbn [mbind option_bind].
    rewrite bool_decide_eq_false_2 by assumption.
    destruct Hcases as [[Hs ->]|(items & Hseq & Hall & ->)].
    + now rewrite Hs.
    + destruct Hseq as [-> | ->]; cbn [is_scalar]; now rewrite Hall.
Qed.

(** C9 as written fails: the scope of any request served over TCP has
    [server] as a (host, port) tuple, a text with a number; that entry is
    in the snapshot, and the claim retains only sequences of one kind. *)
Lemma scope_snapshot_keeps_mixed_sequence :
  let scope := request_scope get_root in
  let value := VTuple [VStr (lit "127.0.0.1"); VInt 8000] in
  scope !! lit "server" = Some value
  /\ _normalize_scope scope !! lit "server"
     = Some (VList [VStr (lit "127.0.0.1"); VInt 8000])
  /\ spec_retained (lit "server") value = false.
Proof.
  cbv zeta. repeat split; vm_compute; reflexivity.
Qed.

(** ** Routing *)

Section Routing.

Context `{rt : Runtime}.




End Routing.




(** ** The text and the JSON value of the body *)

(** C2 on the code.  The handler hands the whole value of [Content-Type] to
    [decode] as the name of a codec.  With [text/plain; charset=latin-1] and
    the octet E9 no codec has that name, the [LookupError] branch decodes as
    UTF-8 and [body.text] is U+FFFD, where latin-1 gives U+00E9.  With a
    value that does name a codec the substitution is that codec's, not
    UTF-8's ([ascii] on C3 A9), and a codec that raises something else than
    [LookupError] takes the request down ([undefined]). *)
Theorem content_type_is_the_codec_name :
  headers_get "content-type" "utf-8" post_latin1
  = lit "text/plain; charset=latin-1"
  /\ body_text (rt:=cpython) post_latin1 = Ok (Some [REPLACEMENT])
  /\ bytes_decode (rt:=cpython) (lit "latin-1") (Request.body post_latin1)
     = Ok [0xE9]
  /\ (exists d, app (rt:=cpython) post_latin1 = Json200 d
                /\ Response.body_text d = Some [REPLACEMENT])
  /\ body_text (rt:=cpython) post_ascii = Ok (Some [REPLACEMENT; REPLACEMENT])
  /\ utf8_decode Replace (Request.body post_ascii) = Ok [0xE9]
  /\ body_text (rt:=cpython) post_undefined = Raise UnicodeError
  /\ app (rt:=cpython) post_undefined = ServerError500 UnicodeError.
Proof.
  split; [reflexivity|]. split; [vm_compute; reflexivity|].
  split; [vm_compute; reflexivity|]. split.
  { eexists. split; vm_compute; reflexivity. }
  repeat (split; [vm_compute; reflexivity|]). vm_compute; reflexivity.
Qed.

(** Validity of a body is what [json.loads] decides.  It is more liberal than
    the JSON grammar on the literals [NaN], [Infinity] and [-Infinity], and
    stricter on integers of more than 4300 digits and on deep nesting. *)
Remark json_loads_liberal :
  json_loads (Runtime:=cpython) (blit "NaN") = Ok (VFloat FNaN)
  /\ json_loads (Runtime:=cpython) (blit "-Infinity") = Ok (VFloat FNegInf)
  /\ json_loads (Runtime:=cpython) (repeat "1"%byte 4301) = Raise ValueError.
Proof. repeat split; vm_compute; reflexivity. Qed.






(** C10.  The body [null] is valid JSON and its value is [None]; the body
    [not-json] is rejected.  For both the JSON step gives [None], so the
    [json] of the two dictionaries is the same: a [None] there does not
    tell an unparseable body from a JSON null. *)
Theorem json_null_is_ambiguous (valid invalid : Request.t) :
  Request.body valid = blit "null" ->
  Request.body invalid = blit "not-json" ->
  json_loads (Runtime:=cpython) (Request.body valid) = Ok VNone
  /\ json_loads (Runtime:=cpython) (Request.body invalid) = Raise JSONDecodeError
  /\ json_payload (rt:=cpython) valid = Ok VNone
  /\ json_payload (rt:=cpython) invalid = Ok VNone
  /\ forall d d', echo (rt:=cpython) valid = Ok d ->
                  echo (rt:=cpython) invalid = Ok d' ->
                  Response.json d = VNone /\ Response.json d' = VNone.
Proof.
  intros Hvalid Hinvalid.
  assert (H1 : json_payload (rt:=cpython) valid = Ok VNone).
  { unfold json_payload, request_json. rewrite Hvalid. vm_compute. reflexivity. }
  assert (H2 : json_payload (rt:=cpython) invalid = Ok VNone).
  { unfold json_payload, request_json. rewrite Hinvalid. vm_compute. reflexivity. }
  rewrite Hvalid, Hinvalid.
  split; [vm_compute; reflexivity|]. split; [vm_compute; reflexivity|].
  split; [exact H1|]. split; [exact H2|].
  intros d d' Hd Hd'.
  apply echo_fields in Hd as (_ & Hd & _). apply echo_fields in Hd' as (_ & Hd' & _).
  split; congruence.
Qed.

Lemma json_null_is_ambiguous_witness :
  (exists d, echo (rt:=cpython) post_null = Ok d /\ Response.json d = VNone)
  /\ (exists d', echo (rt:=cpython) post_not_json = Ok d' /\ Response.json d' = VNone).
Proof.
  destruct (json_null_is_ambiguous post_null post_not_json eq_refl eq_refl)
    as (_ & _ & _ & _ & Hsame).
  assert (H1 : returns (echo (rt:=cpython) post_null))
    by (eexists; vm_compute; reflexivity).
  assert (H2 : returns (echo (rt:=cpython) post_not_json))
    by (eexists; vm_compute; reflexivity).
  destruct H1 as [d Hd], H2 as [d' Hd'].
  destruct (Hsame d d' Hd Hd') as [Hj Hj'].
  split; [exists d | exists d']; auto.
Defined.


(** * Further properties of the code *)

(** ** [_normalize_scope] *)

Section ScopeMore.

(** What the loop leaves of an entry is left as it is by a second pass. *)
Lemma snapshot_of_fixed (key : str) (value v : PyVal) :
  snapshot_of key value = Some v -> snapshot_of key v = Some v.
Proof.
  unfold snapshot_of. destruct (bool_decide (key ∈ skipped_keys)); [discriminate|].
  destruct (is_scalar value) eqn:Hs; [intros [= <-]; now rewrite Hs|].
  destruct value as [ | ? | ? | ? | ? | ? | l | l | ? | ? ]; try discriminate;
    (destruct (forallb is_scalar l) eqn:Hall; [|discriminate]);
    intros [= <-]; cbn [is_scalar]; now rewrite Hall.
Qed.

Lemma snapshot_of_shape (key : str) (value v : PyVal) :
  snapshot_of key value = Some v ->
  (key ∉ skipped_keys)
  /\ (is_scalar v = true
      \/ exists l, v = VList l /\ forallb is_scalar l = true).
Proof.
  unfold snapshot_of. case_bool_decide as Hkey; [discriminate|].
  destruct (is_scalar value) eqn:Hs; [intros [= <-]; auto|].
  destruct value as [ | ? | ? | ? | ? | ? | l | l | ? | ? ]; try discriminate;
    (destruct (forallb is_scalar l) eqn:Hall; [|discriminate]);
    intros [= <-]; eauto.
Qed.

(** The snapshot of a scope with one more entry. *)
Lemma normalize_scope_insert (scope : gmap str PyVal) (key : str) (value : PyVal) :
  _normalize_scope (<[key := value]> scope)
  = match snapshot_of key value with
    | Some v => <[key := v]> (_normalize_scope scope)
    | None => delete key (_normalize_scope scope)
    end.
Proof.
  apply map_eq. intros k. rewrite normalize_scope_lookup.
  destruct (decide (key = k)) as [->|Hne].
  - rewrite lookup_insert_eq. cbn [mbind option_bind].
    destruct (snapshot_of k value).
    + now rewrite lookup_insert_eq.
    + now rewrite lookup_delete_eq.
  - rewrite lookup_insert_ne by assumption.
    destruct (snapshot_of key value).
    + rewrite lookup_insert_ne by assumption. now rewrite normalize_scope_lookup.
    + rewrite lookup_delete_ne by assumption. now rewrite normalize_scope_lookup.
Qed.

End ScopeMore.

(** X1.  A snapshot is its own snapshot: filtering a second time drops and
    changes nothing. *)
Theorem normalize_scope_idempotent (scope : gmap str PyVal) :
  _normalize_scope (_normalize_scope scope) = _normalize_scope scope.
Proof.
  apply map_eq. intros k. rewrite !normalize_scope_lookup.
  destruct (scope !! k) as [value|]; [|reflexivity]. cbn [mbind option_bind].
  destruct (snapshot_of k value) as [v|] eqn:Hv; [|reflexivity].
  cbn [mbind option_bind]. now apply snapshot_of_fixed in Hv.
Qed.

(** X2.  Whatever the scope holds, an entry of the snapshot sits under a key
    of the scope that is none of the skipped ones, and its value is a scalar
    or a list of scalars: no tuple, bytes, dictionary or object gets through,
    at any depth. *)
Theorem normalize_scope_values (scope : gmap str PyVal) (key : str) (v : PyVal) :
  _normalize_scope scope !! key = Some v ->
  (key ∉ skipped_keys)
  /\ is_Some (scope !! key)
  /\ (is_scalar v = true
      \/ exists l, v = VList l /\ forallb is_scalar l = true).
Proof.
  rewrite normalize_scope_lookup.
  destruct (scope !! key) as [value|] eqn:Hk; [|discriminate].
  cbn [mbind option_bind]. intros Hv.
  destruct (snapshot_of_shape key value v Hv) as [Hkey Hshape]. eauto.
Qed.

Lemma normalize_scope_values_witness :
  (lit "server" ∉ skipped_keys)
  /\ is_Some (request_scope get_root !! lit "server")
  /\ (is_scalar (VList [VStr (lit "127.0.0.1"); VInt 8000]) = true
      \/ exists l, VList [VStr (lit "127.0.0.1"); VInt 8000] = VList l
                   /\ forallb is_scalar l = true).
Proof.
  apply (normalize_scope_values (request_scope get_root) (lit "server")).
  vm_compute. reflexivity.
Defined.

(** X3.  Snapshots follow the scope entry by entry.  Setting a scalar under
    a key that is not skipped sets it in the snapshot; setting a list or a
    tuple of scalars sets the list; setting anything under a skipped key, or
    a value that is neither, removes the key from the snapshot.  The other
    entries of the snapshot do not move. *)
Theorem normalize_scope_set (scope : gmap str PyVal) (key : str) (value : PyVal)
    (l : list PyVal) :
  (key ∉ skipped_keys -> is_scalar value = true ->
     _normalize_scope (<[key := value]> scope)
     = <[key := value]> (_normalize_scope scope))
  /\ (key ∉ skipped_keys -> forallb is_scalar l = true ->
        _normalize_scope (<[key := VTuple l]> scope)
        = <[key := VList l]> (_normalize_scope scope)
        /\ _normalize_scope (<[key := VList l]> scope)
           = <[key := VList l]> (_normalize_scope scope))
  /\ (key ∈ skipped_keys ->
        _normalize_scope (<[key := value]> scope)
        = delete key (_normalize_scope scope))
  /\ (is_scalar value = false ->
        (forall l', value = VList l' \/ value = VTuple l' ->
                    forallb is_scalar l' = false) ->
        _normalize_scope (<[key := value]> scope)
        = delete key (_normalize_scope scope)).
Proof.
  split; [|split; [|split]].
  - intros Hkey Hs. rewrite normalize_scope_insert. unfold snapshot_of.
    rewrite bool_decide_eq_false_2 by assumption. now rewrite Hs.
  - intros Hkey Hall. split; rewrite normalize_scope_insert; unfold snapshot_of;
      rewrite bool_decide_eq_false_2 by assumption; cbn [is_scalar];
      now rewrite Hall.
  - intros Hkey. rewrite normalize_scope_insert. unfold snapshot_of.
    now rewrite bool_decide_eq_true_2 by assumption.
  - intros Hs Hseq. rewrite normalize_scope_insert. unfold snapshot_of.
    destruct (bool_decide (key ∈ skipped_keys)); [reflexivity|]. rewrite Hs.
    destruct value as [ | ? | ? | ? | ? | ? | l' | l' | ? | ? ]; try reflexivity;
      rewrite (Hseq l') by auto; reflexivity.
Qed.

Lemma normalize_scope_set_witness :
  _normalize_scope (<[lit "root_path" := VStr (lit "/api")]> (request_scope get_root))
  = <[lit "root_path" := VStr (lit "/api")]> (_normalize_scope (request_scope get_root))
  /\ _normalize_scope (<[lit "state" := VStr (lit "x")]> (request_scope get_root))
     = delete (lit "state") (_normalize_scope (request_scope get_root))
  /\ _normalize_scope (<[lit "raw_path" := VBytes (blit "/")]> (request_scope get_root))
     = delete (lit "raw_path") (_normalize_scope (request_scope get_root)).
Proof.
  destruct (normalize_scope_set (request_scope get_root) (lit "root_path")
              (VStr (lit "/api")) []) as (Hset & _).
  destruct (normalize_scope_set (request_scope get_root) (lit "state")
              (VStr (lit "x")) []) as (_ & _ & Hskip & _).
  destruct (normalize_scope_set (request_scope get_root) (lit "raw_path")
              (VBytes (blit "/")) []) as (_ & _ & _ & Hdrop).
  split; [apply Hset; [|reflexivity]|split; [apply Hskip|apply Hdrop]].
  - apply (bool_decide_eq_false_1 _). vm_compute. reflexivity.
  - apply (bool_decide_eq_true_1 _). vm_compute. reflexivity.
  - reflexivity.
  - intros l' [H|H]; discriminate H.
Defined.

(** ** [_headers_to_list] and [_to_str] *)

Section HeadersMore.

Lemma latin1_encode_decode (b : bytes) : latin1_encode (latin1_decode b) = Some b.
Proof.
  induction b as [|c b IH]; [reflexivity|].
  cbn [latin1_decode map latin1_encode]. rewrite Byte.of_to_N.
  cbn [mbind option_bind]. unfold latin1_decode in IH. now rewrite IH.
Qed.

End HeadersMore.

(** X4.  Reading header bytes as latin-1 loses nothing: for every request,
    whatever octets its header names and values hold, encoding the name and
    the value of each echoed entry back to latin-1 gives the octets that
    were received, header by header; and the text has one character for
    each octet. *)
Theorem headers_binary_safe (request : Request.t) :
  map (fun entry => (latin1_encode (name entry), latin1_encode (value entry)))
      (_headers_to_list (request_headers request))
  = map (fun h => (Some (fst h), Some (snd h))) (Request.headers request)
  /\ map (fun entry => (length (name entry), length (value entry)))
         (_headers_to_list (request_headers request))
     = map (fun h => (length (fst h), length (snd h))) (Request.headers request).
Proof.
  rewrite headers_to_list_request, !map_map. split; apply map_ext; intros [n v];
    cbn [header_entry name value fst snd].
  - now rewrite !latin1_encode_decode.
  - unfold latin1_decode. now rewrite !length_map.
Qed.

(** ** [echo]: when it raises *)

Section Failure.

Context `{rt : Runtime}.




(** What is left of a request in the dictionary besides the body. *)
Lemma echo_request_fields (request : Request.t) (d : Response.t) :
  echo request = Ok d ->
  Response.method d = Request.method request
  /\ Response.client d
     = match Request.client request with
       | Some (host, port) => (VStr host, VInt port)
       | None => (VNone, VNone)
       end
  /\ Response.server d
     = match Request.server request with
       | Some (host, Some port) => (VStr host, VInt port)
       | Some (host, None) => (VStr host, VNone)
       | None => (VNone, VNone)
       end
  /\ Response.query_string d = query_string_text (request_scope request)
  /\ Response.http_version d = scope_get (lit "http_version") (request_scope request)
  /\ Response.scheme d = scope_get (lit "scheme") (request_scope request).
Proof.
  unfold echo.
  destruct (body_text request) as [t|e]; [|discriminate].
  destruct (json_payload request) as [j|e]; [|discriminate].
  destruct (body_base64 request) as [b|e]; [|discriminate].
  cbn [mbind result_bind].
  destruct (Request.client request) as [[? ?]|];
    destruct (Request.server request) as [[? [?|]]|];
    intros [= <-]; cbn; auto 10.
Qed.

End Failure.



(** ** [echo]: what its outcome depends on *)

Section Dependence.

Context `{rt : Runtime}.





End Dependence.




(** ** [echo]: the text of the body *)

Section TextMore.

Lemma utf8_decode_fuel_strict_replace (n : nat) (b : bytes) (s : str) :
  utf8_decode_fuel n Strict b = Ok s -> utf8_decode_fuel n Replace b = Ok s.
Proof.
  revert b s. induction n as [|n IH]; intros [|c0 t1] s; cbn [utf8_decode_fuel];
    auto.
  destruct (utf8_next c0 t1) as [cp rest|rest|]; try discriminate.
  destruct (utf8_decode_fuel n Strict rest) as [s'|] eqn:E; [|discriminate].
  cbn [mbind result_bind]. intros [= <-]. now rewrite (IH rest s' E).
Qed.

Lemma utf8_decode_ascii (h : errors) (b : bytes) :
  Forall (fun c => Byte.to_N c < 0x80) b ->
  utf8_decode h b = Ok (latin1_decode b).
Proof.
  unfold utf8_decode. induction 1 as [|c b Hc Hb IH]; [reflexivity|].
  cbn [length utf8_decode_fuel]. unfold utf8_next.
  apply N.ltb_lt in Hc. rewrite Hc, IH. reflexivity.
Qed.

End TextMore.

(** X8.  Without a [Content-Type] header the text of a non-empty body is its
    UTF-8 decoding with replacement, and the step does not raise: the text
    is exactly the strict UTF-8 decoding when the body is valid UTF-8, and
    the body's own characters when it is ASCII. *)
Theorem text_defaults_to_utf8 `{rt : Runtime} (request : Request.t) :
  find (fun h => bytes_eqb (fst h) (blit "content-type")) (Request.headers request)
  = None ->
  Request.body request <> [] ->
  exists text,
    body_text request = Ok (Some text)
    /\ utf8_decode Replace (Request.body request) = Ok text
    /\ (forall s, utf8_decode Strict (Request.body request) = Ok s -> text = s)
    /\ (Forall (fun c => Byte.to_N c < 0x80) (Request.body request) ->
        text = latin1_decode (Request.body request))
    /\ (forall d, echo request = Ok d -> Response.body_text d = Some text).
Proof.
  intros Hnone Hne.
  destruct (body_text_without_content_type request Hnone Hne) as (text & Hu & Ht).
  exists text. split; [exact Ht|]. split; [exact Hu|]. split; [|split].
  - intros s Hs. apply utf8_decode_fuel_strict_replace in Hs.
    unfold utf8_decode in Hu. congruence.
  - intros Hascii. rewrite (utf8_decode_ascii Replace _ Hascii) in Hu. congruence.
  - intros d Hd. apply echo_fields in Hd as (Hd & _). congruence.
Qed.

Lemma text_defaults_to_utf8_witness :
  exists d, echo (rt:=cpython) post_utf8 = Ok d
            /\ Response.body_text d = Some [0x68; 0xE9; 0x6C; 0x6C; 0x6F].
Proof.
  destruct (text_defaults_to_utf8 (rt:=cpython) post_utf8 eq_refl ltac:(discriminate))
    as (text & _ & Hu & _ & _ & Hfield).
  assert (H : returns (echo (rt:=cpython) post_utf8))
    by (eexists; vm_compute; reflexivity).
  destruct H as [d Hd]. exists d. split; [exact Hd|].
  rewrite (Hfield d Hd). f_equal.
  assert (Hv : utf8_decode Replace (Request.body post_utf8)
               = Ok [0x68; 0xE9; 0x6C; 0x6C; 0x6F]) by (vm_compute; reflexivity).
  congruence.
Defined.

(** X9.  When decoding a non-empty body under the name the [Content-Type]
    header gives raises a [LookupError] (no codec of that name), the
    [except] branch takes over: the text is the UTF-8 decoding of the body
    with replacement and the step returns. *)
Theorem text_falls_back_to_utf8 `{rt : Runtime} (request : Request.t) (e : exn) :
  Request.body request <> [] ->
  bytes_decode (headers_get "content-type" "utf-8" request) (Request.body request)
  = Raise e ->
  is_LookupError e = true ->
  exists text,
    utf8_decode Replace (Request.body request) = Ok text
    /\ body_text request = Ok (Some text)
    /\ (forall d, echo request = Ok d -> Response.body_text d = Some text).
Proof.
  intros Hne Hraise Hlookup.
  destruct (body_text_unknown_codec request e Hne Hraise Hlookup) as (text & Hu & Ht).
  exists text. repeat split; auto.
  intros d Hd. apply echo_fields in Hd as (Hd & _). congruence.
Qed.

Lemma text_falls_back_to_utf8_witness :
  exists text,
    utf8_decode Replace (Request.body post_latin1) = Ok text
    /\ body_text (rt:=cpython) post_latin1 = Ok (Some text)
    /\ text = [REPLACEMENT].
Proof.
  destruct (text_falls_back_to_utf8 (rt:=cpython) post_latin1 LookupError
              ltac:(discriminate) ltac:(vm_compute; reflexivity) eq_refl)
    as (text & Hu & Ht & _).
  exists text. repeat split; auto.
  assert (Hv : utf8_decode Replace (Request.body post_latin1) = Ok [REPLACEMENT])
    by (vm_compute; reflexivity).
  congruence.
Defined.


(** ** [echo]: the scope it reads and the scope it echoes *)

Section RequestScope.

Ltac other_key := intros Heq; vm_compute in Heq; discriminate Heq.

Lemma request_scope_method (request : Request.t) :
  request_scope request !! lit "method" = Some (VStr (Request.method request)).
Proof. unfold request_scope. apply lookup_insert_eq. Qed.

Lemma request_scope_http_version (request : Request.t) :
  request_scope request !! lit "http_version"
  = Some (VStr (Request.http_version request)).
Proof.
  unfold request_scope. rewrite lookup_insert_ne by other_key.
  apply lookup_insert_eq.
Qed.

Lemma request_scope_scheme (request : Request.t) :
  request_scope request !! lit "scheme" = Some (VStr (Request.scheme request)).
Proof.
  unfold request_scope. rewrite !(lookup_insert_ne _ _ (lit "scheme")) by other_key.
  apply lookup_insert_eq.
Qed.

Lemma request_scope_path (request : Request.t) :
  request_scope request !! lit "path" = Some (VStr (Request.path request)).
Proof.
  unfold request_scope. rewrite !(lookup_insert_ne _ _ (lit "path")) by other_key.
  apply lookup_insert_eq.
Qed.

Lemma request_scope_query_string (request : Request.t) :
  request_scope request !! lit "query_string"
  = Some (VBytes (Request.query_string request)).
Proof.
  unfold request_scope.
  rewrite !(lookup_insert_ne _ _ (lit "query_string")) by other_key.
  apply lookup_insert_eq.
Qed.

Lemma request_scope_client (request : Request.t) :
  request_scope request !! lit "client"
  = Some (address_value (Request.client request)).
Proof.
  unfold request_scope. rewrite !(lookup_insert_ne _ _ (lit "client")) by other_key.
  apply lookup_insert_eq.
Qed.

Lemma request_scope_server (request : Request.t) :
  request_scope request !! lit "server"
  = Some (server_value (Request.server request)).
Proof.
  unfold request_scope. rewrite !(lookup_insert_ne _ _ (lit "server")) by other_key.
  apply lookup_insert_eq.
Qed.

Lemma request_scope_path_params (request : Request.t) :
  request_scope request !! lit "path_params"
  = Some (VDict (Request.path_params request)).
Proof.
  unfold request_scope.
  rewrite !(lookup_insert_ne _ _ (lit "path_params")) by other_key.
  apply lookup_insert_eq.
Qed.

Lemma snapshot_skipped (scope : gmap str PyVal) (key : str) :
  key ∈ skipped_keys -> _normalize_scope scope !! key = None.
Proof.
  intros Hkey. rewrite normalize_scope_lookup.
  destruct (scope !! key) as [v|]; [|reflexivity]. cbn [mbind option_bind].
  unfold snapshot_of. now rewrite bool_decide_eq_true_2 by assumption.
Qed.

End RequestScope.

(** X10.  The two renderings of the query string agree.  For every request
    the handler answers, [query_string] is the raw query string read as
    latin-1 (one character for each octet, whatever the octets), and
    [query_params] is [parse_qsl] of that very text; an empty query string
    gives the empty text and no parameter. *)
Theorem query_string_and_params_agree `{rt : Runtime} (request : Request.t)
    (d : Response.t) :
  echo request = Ok d ->
  exists text,
    Response.query_string d = VStr text
    /\ text = latin1_decode (Request.query_string request)
    /\ length text = length (Request.query_string request)
    /\ Response.query_params d = parse_qsl text
    /\ (Request.query_string request = [] ->
        text = [] /\ Response.query_params d = []).
Proof.
  intros Hd. exists (latin1_decode (Request.query_string request)).
  pose proof (echo_request_fields request d Hd) as (_ & _ & _ & Hq & _).
  apply echo_fields in Hd as (_ & _ & _ & _ & _ & Hp & _).
  unfold query_string_text in Hq. rewrite request_scope_query_string in Hq.
  split; [exact Hq|]. split; [reflexivity|]. split; [apply length_map|].
  split; [exact Hp|]. intros Hempty. rewrite Hp.
  unfold query_params_multi_items. rewrite Hempty. split; reflexivity.
Qed.

Lemma query_string_and_params_agree_witness :
  exists d text,
    echo (rt:=cpython) get_duplicates = Ok d
    /\ Response.query_string d = VStr text
    /\ text = lit "k=1&k=2"
    /\ Response.query_params d = parse_qsl text.
Proof.
  assert (H : returns (echo (rt:=cpython) get_duplicates))
    by (eexists; vm_compute; reflexivity).
  destruct H as [d Hd].
  destruct (query_string_and_params_agree (rt:=cpython) get_duplicates d Hd)
    as (text & Hq & Ht & _ & Hp & _).
  exists d, text. repeat split; auto.
Defined.

(** X11.  What the echoed scope holds of a request.  For every request the
    handler answers, the snapshot repeats the [method], [http_version] and
    [scheme] of the dictionary and the path of the scope, it holds the
    client and the server as lists (or [None]), and it never holds the raw
    headers, the raw query string, the path parameters, or anything under
    [raw_headers], [app], [router], [endpoint] or [state], whatever the
    transport put there. *)
Theorem echoed_scope_of_request `{rt : Runtime} (request : Request.t)
    (d : Response.t) :
  echo request = Ok d ->
  Response.scope d !! lit "method" = Some (VStr (Response.method d))
  /\ Response.scope d !! lit "http_version" = Some (Response.http_version d)
  /\ Response.scope d !! lit "scheme" = Some (Response.scheme d)
  /\ Response.scope d !! lit "path" = Some (VStr (Request.path request))
  /\ Response.scope d !! lit "client"
     = Some (match Request.client request with
             | Some (host, port) => VList [VStr host; VInt port]
             | None => VNone
             end)
  /\ Response.scope d !! lit "server"
     = Some (match Request.server request with
             | Some (host, Some port) => VList [VStr host; VInt port]
             | Some (host, None) => VList [VStr host; VNone]
             | None => VNone
             end)
  /\ Response.scope d !! lit "query_string" = None
  /\ Response.scope d !! lit "path_params" = None
  /\ (forall key, key ∈ skipped_keys -> Response.scope d !! key = None).
Proof.
  intros Hd.
  pose proof (echo_request_fields request d Hd) as (Hm & _ & _ & _ & Hv & Hs).
  apply echo_fields in Hd as (_ & _ & _ & _ & _ & _ & Hscope).
  rewrite Hscope, Hm, Hv, Hs. unfold scope_get.
  rewrite !normalize_scope_lookup.
  rewrite request_scope_method, request_scope_http_version, request_scope_scheme,
    request_scope_path, request_scope_client, request_scope_server,
    request_scope_query_string, request_scope_path_params.
  repeat split; try reflexivity.
  - destruct (Request.client request) as [[? ?]|]; reflexivity.
  - destruct (Request.server request) as [[? [?|]]|]; reflexivity.
  - intros key Hkey. now apply snapshot_skipped.
Qed.

Lemma echoed_scope_of_request_witness :
  exists d,
    echo (rt:=cpython) post_json = Ok d
    /\ Response.scope d !! lit "method" = Some (VStr (lit "POST"))
    /\ Response.scope d !! lit "query_string" = None
    /\ Response.scope d !! lit "app" = None.
Proof.
  assert (H : returns (echo (rt:=cpython) post_json))
    by (eexists; vm_compute; reflexivity).
  destruct H as [d Hd].
  destruct (echoed_scope_of_request (rt:=cpython) post_json d Hd)
    as (Hm & _ & _ & _ & _ & _ & Hq & _ & Hskip).
  pose proof (echo_request_fields (rt:=cpython) post_json d Hd) as (Hmethod & _).
  exists d. split; [exact Hd|]. rewrite Hmethod in Hm.
  split; [exact Hm|]. split; [exact Hq|].
  apply Hskip. apply (bool_decide_eq_true_1 _). vm_compute. reflexivity.
Defined.

(** ** The route *)

Section RouteMore.

Context `{rt : Runtime}.



End RouteMore.



(** ** [echo]: the three fields of [body] *)

Section BodyMore.

Lemma b64encode_length (s : bytes) :
  (length (b64encode s) = 4 * ((length s + 2) / 3))%nat.
Proof.
  induction s as [|a|a b|a b c l IH] using bytes_ind3; try reflexivity.
  cbn [b64encode length]. rewrite IH.
  replace (S (S (S (length l))) + 2)%nat with ((length l + 2) + 1 * 3)%nat by lia.
  rewrite Nat.div_add by discriminate. lia.
Qed.

End BodyMore.

(** X13.  The three fields of [body] go together.  In every dictionary the
    handler returns, [length] is the number of octets of the body; [text]
    and [base64] are [None] exactly when that number is 0; and [base64],
    when present, has four characters for every three octets of the body,
    rounded up. *)
Theorem body_fields_go_together `{rt : Runtime} (request : Request.t)
    (d : Response.t) :
  echo request = Ok d ->
  Response.body_length d = Z.of_nat (length (Request.body request))
  /\ (Response.body_text d = None <-> Response.body_length d = 0%Z)
  /\ (Response.body_base64 d = None <-> Response.body_length d = 0%Z)
  /\ (forall text, Response.body_base64 d = Some text ->
        Z.of_nat (length text) = (4 * ((Response.body_length d + 2) / 3))%Z).
Proof.
  intros Hd. apply echo_fields in Hd as (Ht & _ & Hb & Hlen & _).
  rewrite Hlen. split; [reflexivity|].
  destruct (Request.body request) as [|c b] eqn:Hbody.
  - unfold body_text in Ht. unfold body_base64 in Hb. rewrite Hbody in Ht, Hb.
    cbn [nonempty] in Ht, Hb. injection Ht as <-. injection Hb as <-.
    repeat split; auto; discriminate.
  - assert (Hne : Request.body request <> []) by congruence.
    rewrite (body_base64_nonempty request Hne) in Hb. injection Hb as <-.
    unfold body_text in Ht. rewrite Hbody in Ht. cbn [nonempty] in Ht.
    destruct (try_except _ _ _) as [t|]; [|discriminate].
    cbn [mbind result_bind] in Ht. injection Ht as <-.
    split; [|split].
    + split; [discriminate|]. cbn [length]. lia.
    + split; [discriminate|]. cbn [length]. lia.
    + intros text [= <-]. unfold latin1_decode. rewrite length_map.
      rewrite b64encode_length, Hbody.
      rewrite Nat2Z.inj_mul, Nat2Z.inj_div, Nat2Z.inj_add. reflexivity.
Qed.

Lemma body_fields_go_together_witness :
  exists d text,
    echo (rt:=cpython) post_json = Ok d
    /\ Response.body_length d = 7%Z
    /\ Response.body_base64 d = Some text
    /\ Z.of_nat (length text) = 12%Z.
Proof.
  assert (H : returns (echo (rt:=cpython) post_json))
    by (eexists; vm_compute; reflexivity).
  destruct H as [d Hd].
  destruct (body_fields_go_together (rt:=cpython) post_json d Hd)
    as (Hlen & _ & _ & Hb64).
  pose proof (echo_fields (rt:=cpython) post_json d Hd) as (_ & _ & Hb & _).
  rewrite (body_base64_nonempty post_json ltac:(discriminate)) in Hb.
  injection Hb as Hb. symmetry in Hb.
  eexists d, _. split; [exact Hd|]. split; [exact Hlen|]. split; [exact Hb|].
  rewrite (Hb64 _ Hb), Hlen. reflexivity.
Defined.


(** ** [request.query_params]: escapes and blanks *)

Section QueryMore.

Lemma hex_value_hex_digit (n : N) : n < 16 -> hex_value (hex_digit n) = Some n.
Proof.
  intros Hn.
  pose proof (below_spec
    (fun k => match hex_value (hex_digit k) with
              | Some j => j =? k
              | None => false
              end) 16 ltac:(vm_compute; reflexivity) n Hn) as H.
  cbv beta in H. destruct (hex_value (hex_digit n)); [|discriminate].
  f_equal. now apply N.eqb_eq.
Qed.

Lemma hex_digit_ordinary (n : N) :
  n < 16 ->
  hex_digit n < 0x80 /\ hex_digit n <> ch "&" /\ hex_digit n <> ch "="
  /\ hex_digit n <> ch "+" /\ hex_digit n <> ch "%".
Proof.
  intros Hn.
  pose proof (below_spec
    (fun k => (hex_digit k <? 0x80) && negb (hex_digit k =? ch "&")
              && negb (hex_digit k =? ch "=") && negb (hex_digit k =? ch "+")
              && negb (hex_digit k =? ch "%"))
    16 ltac:(vm_compute; reflexivity) n Hn) as H.
  cbv beta in H. repeat (apply andb_true_iff in H as [H ?]).
  repeat match goal with
         | X : negb _ = true |- _ => apply negb_true_iff, N.eqb_neq in X
         end.
  apply N.ltb_lt in H. auto.
Qed.

Lemma byte_nibbles (c : byte) :
  Byte.to_N c / 16 < 16 /\ Byte.to_N c mod 16 < 16
  /\ byte_of_code (Byte.to_N c / 16 * 16 + Byte.to_N c mod 16) = c.
Proof.
  pose proof (byte_lt c) as Hc. split; [|split].
  - apply N.Div0.div_lt_upper_bound. lia.
  - apply N.mod_lt. discriminate.
  - replace (Byte.to_N c / 16 * 16 + Byte.to_N c mod 16) with (Byte.to_N c).
    + unfold byte_of_code. now rewrite Byte.of_to_N.
    + rewrite (N.div_mod (Byte.to_N c) 16) at 1 by discriminate. lia.
Qed.

Lemma unquote_to_bytes_percent_encode (b : bytes) :
  unquote_to_bytes (percent_encode b) = b.
Proof.
  induction b as [|c b IH]; [reflexivity|].
  destruct (byte_nibbles c) as (Hhi & Hlo & Hc).
  cbn [percent_encode flat_map Datatypes.app unquote_to_bytes].
  rewrite N.eqb_refl, !hex_value_hex_digit by assumption.
  rewrite Hc. f_equal. exact IH.
Qed.

Lemma percent_encode_chars (sep : N) (b : bytes) :
  sep = ch "&" \/ sep = ch "=" \/ sep = ch "+" ->
  no_char sep (percent_encode b).
Proof.
  intros Hsep. unfold no_char. induction b as [|c b IH]; [reflexivity|].
  destruct (byte_nibbles c) as (Hhi & Hlo & _).
  destruct (hex_digit_ordinary _ Hhi) as (_ & H1 & H2 & H3 & _).
  destruct (hex_digit_ordinary _ Hlo) as (_ & H1' & H2' & H3' & _).
  cbn [percent_encode flat_map Datatypes.app forallb].
  fold (percent_encode b). rewrite IH.
  assert (Hneq : forall x, x <> sep -> negb (x =? sep) = true)
    by (intros x Hx; now apply negb_true_iff, N.eqb_neq).
  destruct Hsep as [ -> | [ -> | -> ] ];
    rewrite !Hneq by (assumption || (cbv; discriminate)); reflexivity.
Qed.

Lemma percent_encode_ascii (b : bytes) :
  Forall (fun c => c < 0x80) (percent_encode b).
Proof.
  induction b as [|c b IH]; [constructor|].
  destruct (byte_nibbles c) as (Hhi & Hlo & _).
  cbn [percent_encode flat_map Datatypes.app]. fold (percent_encode b).
  repeat constructor; try apply hex_digit_ordinary; assumption.
Qed.

Lemma ascii_runs_ascii (s : str) :
  s <> [] -> Forall (fun c => c < 0x80) s -> ascii_runs s = [(true, s)].
Proof.
  intros Hne Hall. induction Hall as [|c s Hc Hs IH]; [congruence|].
  cbn [ascii_runs]. apply N.ltb_lt in Hc. rewrite Hc.
  destruct s as [|c' s']; [reflexivity|].
  rewrite IH by discriminate. reflexivity.
Qed.

Lemma unquote_percent_encode (b : bytes) :
  unquote (percent_encode b) = utf8_replace b.
Proof.
  destruct b as [|c b]; [reflexivity|].
  unfold unquote.
  replace (existsb (fun x => x =? ch "%") (percent_encode (c :: b))) with true
    by reflexivity.
  rewrite ascii_runs_ascii; [|discriminate|apply percent_encode_ascii].
  cbn [flat_map]. rewrite unquote_to_bytes_percent_encode. apply app_nil_r.
Qed.

Lemma plus_to_space_no_plus (s : str) : no_char (ch "+") s -> plus_to_space s = s.
Proof.
  unfold no_char, plus_to_space. induction s as [|c s IH]; [reflexivity|].
  cbn [forallb map]. intros [Hc Hs]%andb_true_iff.
  apply negb_true_iff in Hc. now rewrite Hc, (IH Hs).
Qed.

(** The arguments of a query string whose keys and values hold no [&] and
    whose keys hold no [=]. *)
Lemma split_join_separated (p : str * str) (pairs : list (str * str)) :
  Forall (fun kv => no_char (ch "&") (fst kv) /\ no_char (ch "&") (snd kv))
         (p :: pairs) ->
  split_on (ch "&") (join_pairs (p :: pairs))
  = map (fun kv => fst kv ++ ch "=" :: snd kv) (p :: pairs).
Proof.
  assert (Harg : forall k v, no_char (ch "&") k -> no_char (ch "&") v ->
            forallb (fun c => negb (c =? ch "&")) (k ++ ch "=" :: v) = true).
  { intros k v Hk Hv. rewrite forallb_app. cbn [forallb].
    unfold no_char in Hk, Hv. now rewrite Hk, Hv. }
  revert p. induction pairs as [|q pairs IH]; intros [k v] Hall.
  - cbn [join_pairs map fst snd]. rewrite app_nil_r.
    inversion Hall as [|? ? [Hk Hv] _]; subst. now apply split_on_no_sep, Harg.
  - inversion Hall as [|? ? [Hk Hv] Hrest]; subst. cbn [fst snd] in Hk, Hv.
    change (join_pairs ((k, v) :: q :: pairs))
      with (k ++ ch "=" :: v ++ ch "&" :: join_pairs (q :: pairs)).
    replace (k ++ ch "=" :: v ++ ch "&" :: join_pairs (q :: pairs))
      with ((k ++ ch "=" :: v) ++ ch "&" :: join_pairs (q :: pairs))
      by (now rewrite <- app_assoc).
    rewrite split_on_app by (now apply Harg).
    rewrite (IH q Hrest). reflexivity.
Qed.

Lemma parse_qsl_join_encoded (pairs : list (bytes * bytes)) :
  parse_qsl (join_encoded pairs)
  = map (fun kv => (utf8_replace (fst kv), utf8_replace (snd kv))) pairs.
Proof.
  unfold join_encoded. destruct pairs as [|p pairs]; [reflexivity|].
  rewrite parse_qsl_split.
  set (enc := fun kv : bytes * bytes =>
                (percent_encode (fst kv), percent_encode (snd kv))).
  change (map enc (p :: pairs)) with (enc p :: map enc pairs).
  rewrite split_join_separated.
  2:{ change (enc p :: map enc pairs) with (map enc (p :: pairs)).
      apply (proj2 (List.Forall_map _ _ _)). apply Forall_true. intros kv.
      subst enc. cbn [fst snd]. split; apply percent_encode_chars; auto. }
  change (enc p :: map enc pairs) with (map enc (p :: pairs)).
  induction (p :: pairs) as [|[k v] rest IH]; [reflexivity|].
  cbn [map flat_map]. rewrite IH. subst enc. cbn [fst snd].
  unfold argument_pair.
  rewrite split_name_value_app by (apply percent_encode_chars; auto).
  rewrite !plus_to_space_no_plus by (apply percent_encode_chars; auto).
  rewrite !unquote_percent_encode.
  destruct (percent_encode k); reflexivity.
Qed.

End QueryMore.

(** X14.  Percent-encoded octets come back decoded.  When the query string
    spells out pairs whose keys and values are percent-encoded octet by
    octet, [query_params] holds, pair for pair and in order, the UTF-8
    decoding with replacement of those octets: the very text when the octets
    are valid UTF-8, and never an error when they are not. *)
Theorem query_params_percent_decoded `{rt : Runtime} (request : Request.t)
    (pairs : list (bytes * bytes)) :
  latin1_decode (Request.query_string request) = join_encoded pairs ->
  query_params_multi_items request
  = map (fun kv => (utf8_replace (fst kv), utf8_replace (snd kv))) pairs
  /\ (forall kv s, In kv pairs -> utf8_decode Strict (fst kv) = Ok s ->
                   utf8_replace (fst kv) = s)
  /\ (forall kv s, In kv pairs -> utf8_decode Strict (snd kv) = Ok s ->
                   utf8_replace (snd kv) = s)
  /\ (forall d, echo request = Ok d ->
        Response.query_params d
        = map (fun kv => (utf8_replace (fst kv), utf8_replace (snd kv))) pairs).
Proof.
  intros Hqs.
  assert (Hparams : query_params_multi_items request
                    = map (fun kv => (utf8_replace (fst kv), utf8_replace (snd kv)))
                          pairs).
  { unfold query_params_multi_items. rewrite Hqs. apply parse_qsl_join_encoded. }
  assert (Hstrict : forall b s, utf8_decode Strict b = Ok s -> utf8_replace b = s).
  { intros b s Hs. apply utf8_decode_fuel_strict_replace in Hs.
    unfold utf8_replace, utf8_decode. now rewrite Hs. }
  split; [exact Hparams|]. split; [|split].
  - intros kv s _. apply Hstrict.
  - intros kv s _. apply Hstrict.
  - intros d Hd. apply echo_fields in Hd as (_ & _ & _ & _ & _ & Hd & _).
    now rewrite Hd.
Qed.

Lemma query_params_percent_decoded_witness :
  query_params_multi_items get_encoded
  = [([0x63; 0x61; 0x66; 0xE9], [REPLACEMENT])].
Proof.
  destruct (query_params_percent_decoded (rt:=cpython) get_encoded
              [([x63; x61; x66; xc3; xa9], [xff])]) as (Hparams & _).
  - vm_compute. reflexivity.
  - rewrite Hparams. vm_compute. reflexivity.
Defined.

(** ** [request.query_params]: blanks, empty arguments and [+] *)

Section QueryBlanks.

Lemma split_name_value_bare (k : str) :
  no_char (ch "=") k -> split_name_value k = (k, []).
Proof.
  unfold no_char. induction k as [|c k IH]; [reflexivity|].
  cbn [forallb split_name_value]. intros [Hc Hk]%andb_true_iff.
  apply negb_true_iff in Hc. now rewrite Hc, (IH Hk).
Qed.

Lemma unquote_no_percent (s : str) : no_char (ch "%") s -> unquote s = s.
Proof.
  unfold no_char, unquote. intros Hs.
  replace (existsb (fun c => c =? ch "%") s) with false; [reflexivity|].
  symmetry. apply not_true_is_false. intros [c [Hin Hc]]%existsb_exists.
  rewrite forallb_forall in Hs. specialize (Hs c Hin). rewrite Hc in Hs.
  discriminate.
Qed.

(** A query string of one argument [k=v]. *)
Lemma parse_qsl_one (k v : str) :
  no_char (ch "&") k -> no_char (ch "=") k -> no_char (ch "&") v ->
  parse_qsl (k ++ ch "=" :: v)
  = [(unquote (plus_to_space k), unquote (plus_to_space v))].
Proof.
  intros Hk Heq Hv. rewrite parse_qsl_split, split_on_no_sep.
  - cbn [flat_map]. rewrite app_nil_r. unfold argument_pair.
    rewrite split_name_value_app by exact Heq. destruct k; reflexivity.
  - rewrite forallb_app. cbn [forallb]. unfold no_char in Hk, Hv.
    now rewrite Hk, Hv.
Qed.

(** A query string of one bare name. *)
Lemma parse_qsl_bare (k : str) :
  k <> [] -> no_char (ch "&") k -> no_char (ch "=") k ->
  parse_qsl k = [(unquote (plus_to_space k), [])].
Proof.
  intros Hne Hk Heq. rewrite parse_qsl_split, split_on_no_sep by exact Hk.
  cbn [flat_map]. unfold argument_pair. rewrite split_name_value_bare by exact Heq.
  destruct k; [congruence|reflexivity].
Qed.

Lemma plain_no_char (sep : N) (s : str) :
  is_plain sep = false -> forallb is_plain s = true -> no_char sep s.
Proof. apply plain_weaken. Qed.

Lemma plus_to_space_spaces_as_plus (s : str) :
  no_char (ch "+") s -> plus_to_space (spaces_as_plus s) = s.
Proof.
  unfold no_char, plus_to_space, spaces_as_plus.
  induction s as [|c s IH]; [reflexivity|].
  cbn [forallb map]. intros [Hc Hs]%andb_true_iff. rewrite (IH Hs).
  apply negb_true_iff in Hc.
  destruct (c =? ch " ") eqn:Hsp.
  - apply N.eqb_eq in Hsp. subst c. reflexivity.
  - now rewrite Hc.
Qed.

Lemma spaces_as_plus_no_char (sep : N) (s : str) :
  sep <> ch "+" -> no_char sep s -> no_char sep (spaces_as_plus s).
Proof.
  unfold no_char, spaces_as_plus. intros Hsep.
  induction s as [|c s IH]; [reflexivity|].
  cbn [forallb map]. intros [Hc Hs]%andb_true_iff. rewrite (IH Hs).
  destruct (c =? ch " ").
  - apply N.eqb_neq in Hsep. rewrite N.eqb_sym in Hsep. now rewrite Hsep.
  - now rewrite Hc.
Qed.

Lemma byte_of_code_to_N (c : N) : c < 256 -> Byte.to_N (byte_of_code c) = c.
Proof.
  intros Hc. unfold byte_of_code. destruct (Byte.of_N c) as [b|] eqn:Hb.
  - now apply Byte.to_of_N.
  - apply Byte.of_N_None_iff in Hb. lia.
Qed.

(** Before the first [%] of a run every character is one octet. *)
Lemma unquote_to_bytes_app (s w : str) :
  no_char (ch "%") s ->
  unquote_to_bytes (s ++ w) = map byte_of_code s ++ unquote_to_bytes w.
Proof.
  unfold no_char. induction s as [|c s IH]; [reflexivity|].
  cbn [forallb Datatypes.app map unquote_to_bytes].
  intros [Hc Hs]%andb_true_iff. apply negb_true_iff in Hc.
  now rewrite Hc, (IH Hs).
Qed.

(** An ASCII text that ends in [%2B] ends in [+] once unquoted. *)
Lemma unquote_escaped_plus (s : str) :
  Forall (fun c => c < 0x80) s -> no_char (ch "%") s ->
  unquote (s ++ lit "%2B") = s ++ [ch "+"].
Proof.
  intros Hascii Hs. unfold unquote.
  replace (existsb (fun c => c =? ch "%") (s ++ lit "%2B")) with true
    by (rewrite existsb_app; cbn; now rewrite orb_true_r).
  rewrite ascii_runs_ascii.
  - cbn [flat_map]. rewrite app_nil_r, unquote_to_bytes_app by exact Hs.
    change (unquote_to_bytes (lit "%2B")) with [byte_of_code (ch "+")].
    change ([byte_of_code (ch "+")]) with (map byte_of_code [ch "+"]).
    rewrite <- map_app. unfold utf8_replace. rewrite (utf8_decode_ascii Replace).
    + unfold latin1_decode. rewrite map_map.
      rewrite <- (map_id (s ++ [ch "+"])) at 2. apply map_ext_in.
      intros c Hc. apply byte_of_code_to_N.
      apply in_app_or in Hc as [Hc|[<-|[]]]; [|reflexivity].
      rewrite List.Forall_forall in Hascii. specialize (Hascii c Hc). lia.
    + apply (proj2 (List.Forall_map _ _ _)). apply List.Forall_forall.
      intros c Hc. rewrite byte_of_code_to_N.
      * apply in_app_or in Hc as [Hc|[<-|[]]]; [|reflexivity].
        rewrite List.Forall_forall in Hascii. exact (Hascii c Hc).
      * apply in_app_or in Hc as [Hc|[<-|[]]]; [|reflexivity].
        rewrite List.Forall_forall in Hascii. specialize (Hascii c Hc). lia.
  - destruct s; discriminate.
  - apply Forall_app. split; [exact Hascii|]. repeat constructor.
Qed.

End QueryBlanks.

(** X15.  Blank values, bare names and empty arguments.  For a name free of
    [&], [=], [%] and [+] and a value free of [&], [%] and [+]: the argument
    [name=value] gives the pair as written, the value being blank or holding
    further [=] signs (the first [=] alone separates); the bare [name] gives
    the name with a blank value.  Empty arguments give no pair: a doubled, a
    leading and a trailing [&] change nothing.  And an argument gives its pair
    wherever it stands among others. *)
Theorem query_blanks_kept_empties_dropped (a b k v : str) :
  forallb is_plain k = true ->
  no_char (ch "&") v -> no_char (ch "%") v -> no_char (ch "+") v ->
  parse_qsl (k ++ ch "=" :: v) = [(k, v)]
  /\ parse_qsl (k ++ [ch "="]) = [(k, [])]
  /\ (k <> [] -> parse_qsl k = [(k, [])])
  /\ parse_qsl (a ++ ch "&" :: ch "&" :: b) = parse_qsl (a ++ ch "&" :: b)
  /\ parse_qsl (ch "&" :: a) = parse_qsl a
  /\ parse_qsl (a ++ [ch "&"]) = parse_qsl a
  /\ parse_qsl (a ++ ch "&" :: k ++ ch "=" :: v ++ ch "&" :: b)
     = parse_qsl a ++ (k, v) :: parse_qsl b.
Proof.
  intros Hk Hamp Hpct Hplus.
  pose proof (plain_no_char (ch "&") k eq_refl Hk) as Hk1.
  pose proof (plain_no_char (ch "=") k eq_refl Hk) as Hk2.
  assert (Hone : parse_qsl (k ++ ch "=" :: v) = [(k, v)]).
  { rewrite parse_qsl_one by assumption.
    rewrite plus_to_space_plain, unquote_plain by assumption.
    now rewrite plus_to_space_no_plus, unquote_no_percent. }
  split; [exact Hone|]. split; [|split; [|split; [|split; [|split]]]].
  - rewrite parse_qsl_one by (assumption || reflexivity).
    now rewrite plus_to_space_plain, unquote_plain.
  - intros Hne. rewrite parse_qsl_bare by assumption.
    now rewrite plus_to_space_plain, unquote_plain.
  - rewrite (parse_qsl_app a (ch "&" :: b)), (parse_qsl_app a b). f_equal.
    apply (parse_qsl_app [] b).
  - apply (parse_qsl_app [] a).
  - rewrite parse_qsl_app. apply app_nil_r.
  - rewrite parse_qsl_app.
    replace (k ++ ch "=" :: v ++ ch "&" :: b)
      with ((k ++ ch "=" :: v) ++ ch "&" :: b) by (now rewrite <- app_assoc).
    now rewrite parse_qsl_app, Hone.
Qed.

Lemma query_blanks_kept_empties_dropped_witness :
  query_params_multi_items get_blanks
  = [(lit "a", []); (lit "b", []); (lit "c", lit "d=e")].
Proof.
  destruct (query_blanks_kept_empties_dropped (lit "a=&b&") [] (lit "c") (lit "d=e")
              eq_refl eq_refl eq_refl eq_refl) as (Hlast & _).
  destruct (query_blanks_kept_empties_dropped (lit "a=&b") (lit "c=d=e") (lit "b") []
              eq_refl eq_refl eq_refl eq_refl) as (_ & _ & Hbare & Hdouble & _).
  destruct (query_blanks_kept_empties_dropped [] [] (lit "a") []
              eq_refl eq_refl eq_refl eq_refl) as (_ & Hblank & _).
  change (query_params_multi_items get_blanks)
    with (parse_qsl (lit "a=&b" ++ ch "&" :: ch "&" :: lit "c=d=e")).
  rewrite Hdouble.
  rewrite (parse_qsl_app (lit "a=&b") (lit "c=d=e")).
  change (lit "a=&b") with ((lit "a" ++ [ch "="]) ++ ch "&" :: lit "b").
  rewrite (parse_qsl_app (lit "a" ++ [ch "="]) (lit "b")). rewrite Hblank.
  rewrite Hbare by discriminate.
  change (lit "c=d=e") with (lit "c" ++ ch "=" :: lit "d=e"). rewrite Hlast.
  reflexivity.
Defined.

(** X16.  Spaces and pluses.  A [+] of the query string is a space: when a
    client writes a name and a value (free of [&], [=], [%] and [+]) with
    every space as [+], [query_params] holds the name and the value with
    their spaces.  A plus sign has to come percent-encoded, and then it is
    kept: after an ASCII value, [%2B] gives [+], because [+] is replaced
    before the escapes are decoded. *)
Theorem query_plus_is_space (k v : str) :
  forallb is_plain k = true -> forallb is_plain v = true ->
  parse_qsl (spaces_as_plus k ++ ch "=" :: spaces_as_plus v) = [(k, v)]
  /\ (Forall (fun c => c < 0x80) v ->
      parse_qsl (k ++ ch "=" :: v ++ lit "%2B") = [(k, v ++ [ch "+"])]).
Proof.
  intros Hk Hv.
  pose proof (plain_no_char (ch "&") k eq_refl Hk) as Hk1.
  pose proof (plain_no_char (ch "=") k eq_refl Hk) as Hk2.
  pose proof (plain_no_char (ch "+") k eq_refl Hk) as Hk3.
  pose proof (plain_no_char (ch "&") v eq_refl Hv) as Hv1.
  pose proof (plain_no_char (ch "+") v eq_refl Hv) as Hv3.
  pose proof (plain_no_char (ch "%") v eq_refl Hv) as Hv4.
  split.
  - rewrite parse_qsl_one
      by (apply spaces_as_plus_no_char; [discriminate|assumption]).
    rewrite !plus_to_space_spaces_as_plus by assumption.
    now rewrite !unquote_plain.
  - intros Hascii. rewrite parse_qsl_one; [|assumption|assumption|].
    + rewrite plus_to_space_plain, unquote_plain by assumption.
      rewrite plus_to_space_no_plus.
      * now rewrite unquote_escaped_plus.
      * unfold no_char in *. rewrite forallb_app, Hv3. reflexivity.
    + unfold no_char in *. rewrite forallb_app, Hv1. reflexivity.
Qed.

Lemma query_plus_is_space_witness :
  query_params_multi_items get_plus
  = [(lit "q", lit "a b"); (lit "r", lit "C+")].
Proof.
  destruct (query_plus_is_space (lit "q") (lit "a b") eq_refl eq_refl)
    as (Hspace & _).
  destruct (query_plus_is_space (lit "r") (lit "C") eq_refl eq_refl)
    as (_ & Hplus).
  specialize (Hplus ltac:(repeat constructor)).
  change (query_params_multi_items get_plus)
    with (parse_qsl ((spaces_as_plus (lit "q") ++ ch "=" :: spaces_as_plus (lit "a b"))
                     ++ ch "&" :: lit "r" ++ ch "=" :: lit "C" ++ lit "%2B")).
  rewrite parse_qsl_app, Hspace, Hplus.
  reflexivity.
Defined.
